(** * Causal chat system: vector clocks, causal delivery engine, chat hub

    A shallow embedding of the client of [frontend/script.js] (classes
    [VectorClockManager], [CausalOrderEngine], [CausalChatApp]) and of the
    hub (class [ChatServer], in its later version with [getStats]),
    together with the properties the specification states about them.

    Conventions. A counter is a natural number, and so is a time read
    from [Date.now()]; a difference of two times is an integer. [Date.now()]
    and [uuidv4()] are arguments of the operations that call them. The clock
    [Map] is a finite map: the program only looks entries up and runs over
    all of them, and no result modelled here depends on the order of that
    run. The message buffer is a [Map] that is iterated for its order, and
    keeps it. A handler of the client ends normally or by an exception; the
    state it leaves is kept in both cases. Calls to the user interface and
    to [console] are left out. *)

From Stdlib Require Import String List Arith Lia Bool.
From stdpp Require Import base option list gmap strings.

#[local] Set Warnings "-clear-no-such-hyp".

Open Scope string_scope.
Open Scope nat_scope.
Open Scope list_scope.

(** ** JavaScript values used by the program *)

(** A clock as it travels in a message: an array of [[id, count]] pairs. *)
Abbreviation ClockArray := (list (string * nat)).

(** [map.get(k) || 0]: an absent entry and a zero entry both read as 0. *)
Definition read (m : gmap string nat) (k : string) : nat := default 0 (m !! k).

(** [new Map(array)]: the pairs are inserted from left to right, so a later
    pair with the same key overwrites an earlier one. *)
Definition Map_of_entries (arr : ClockArray) : gmap string nat :=
  foldl (λ m kv, <[kv.1 := kv.2]> m) ∅ arr.

(** An exception of the program. The one raised in the code modelled here
    is the [TypeError] of a call of something that is no function. *)
Inductive JsError := TypeError (message : string).

(** How a handler ends: it returns, or an exception leaves it. Either way
    the object is in the state the handler has brought it to. *)
Inductive Completion (St : Type) :=
  | Normal (this : St)
  | Throw (e : JsError) (this : St).

Arguments Normal {St} this.
Arguments Throw {St} e this.

(** One statement after another: what follows an exception is not run. *)
Definition and_then {St} (c : Completion St) (k : St → Completion St)
    : Completion St :=
  match c with
  | Normal this => k this
  | Throw e this => Throw e this
  end.

(** [list.forEach(x => ...)] with a body that may raise: the exception
    leaves the loop, and the elements after it are not visited. *)
Fixpoint forEach {St A} (body : St → A → Completion St) (l : list A) (this : St)
    : Completion St :=
  match l with
  | [] => Normal this
  | x :: rest => and_then (body this x) (forEach body rest)
  end.

(** ** VectorClockManager

    The class has the methods modelled below and four that only format
    the clock for display ([getClock], [getClockString], [getAllClocks],
    [getIndividualClockString]). It has no method [merge]. *)

Module VectorClockManager.

Record t := mk { userId : string; clock : gmap string nat }.

(** Methods run on the object [this]: a computation takes the object and
    returns its result with the object as the method left it. *)
Definition VC (A : Type) : Type := t → A * t.

#[global] Instance VC_ret : MRet VC := λ A a this, (a, this).
#[global] Instance VC_bind : MBind VC :=
  λ A B k c this, let '(a, this') := c this in k a this'.

(** The primitive accesses to [this.clock]. *)
Definition clock_get (k : string) : VC nat := λ this, (read (clock this) k, this).
Definition clock_has (k : string) : VC bool :=
  λ this, (bool_decide (is_Some (clock this !! k)), this).
Definition clock_set (k : string) (v : nat) : VC unit :=
  λ this, (tt, mk (userId this) (<[k := v]> (clock this))).
Definition clock_entries : VC ClockArray := λ this, (map_to_list (clock this), this).
Definition this_userId : VC string := λ this, (userId this, this).

Definition skip : VC unit := mret tt.

(** [constructor(userId)] *)
Definition new (uid : string) : t := mk uid (<[uid := 0]> ∅).

(** [addUser(userId)] *)
Definition addUser (uid : string) : VC unit :=
  known ← clock_has uid;
  if (known : bool) then skip else clock_set uid 0.

(** [getClockArray()] *)
Definition getClockArray : VC ClockArray := clock_entries.

(** [increment()] *)
Definition increment : VC ClockArray :=
  self ← this_userId;
  current ← clock_get self;
  clock_set self (current + 1);;
  getClockArray.

(** The loop [for (const [userId, localTime] of this.clock.entries())] of
    [isCausallyReady]; [return false] leaves the loop at once. *)
Fixpoint others_loop (messageClock : gmap string nat) (senderId : string)
    (entries : ClockArray) : VC bool :=
  match entries with
  | [] => mret true
  | (uid, localTime) :: rest =>
      if decide (uid = senderId) then others_loop messageClock senderId rest
      else
        let messageTime := read messageClock uid in
        if localTime <? messageTime then mret false
        else others_loop messageClock senderId rest
  end.

(** [isCausallyReady(messageClockArray, senderId)] *)
Definition isCausallyReady (messageClockArray : ClockArray) (senderId : string)
    : VC bool :=
  let messageClock := Map_of_entries messageClockArray in
  senderLocalTime ← clock_get senderId;
  let senderMessageTime := read messageClock senderId in
  if negb (senderMessageTime =? senderLocalTime + 1) then mret false
  else
    entries ← clock_entries;
    others_loop messageClock senderId entries.

(** [canDeliverBufferedMessage(messageClockArray, senderId)] *)
Definition canDeliverBufferedMessage (messageClockArray : ClockArray)
    (senderId : string) : VC bool :=
  isCausallyReady messageClockArray senderId.

(** [syncWithUsers(users)], on the ids of the users. *)
Fixpoint syncWithUsers (ids : list string) : VC unit :=
  match ids with
  | [] => mret tt
  | uid :: rest =>
      known ← clock_has uid;
      (if (known : bool) then skip else clock_set uid 0);;
      syncWithUsers rest
  end.

End VectorClockManager.

Module VCM := VectorClockManager.

(** The readiness predicate as the specification words it (4.1): the
    sender's entry is the next tick, and every other participant's entry is
    at most the local one, entries missing from either map read as 0. *)
Definition spec_ready (messageClockArray : ClockArray) (senderId : string)
    (local : gmap string nat) : Prop :=
  let messageClock := Map_of_entries messageClockArray in
  read messageClock senderId = read local senderId + 1 ∧
  ∀ p, p ≠ senderId → read messageClock p ≤ read local p.

(** The answer of the readiness check at a clock. *)
Definition ready (messageClockArray : ClockArray) (senderId : string)
    (vc : VCM.t) : bool :=
  (VCM.isCausallyReady messageClockArray senderId vc).1.

(** ** JavaScript [Map] with its insertion order

    [CausalOrderEngine.messageBuffer] is iterated, so the order of its
    entries matters: a [Map] iterates in the order in which the keys were
    first inserted, and [set] on a present key keeps its place. *)

Module JsMap.

Abbreviation t V := (list (string * V)).

Definition get {V} (k : string) (m : t V) : option V :=
  snd <$> find (λ kv, bool_decide (kv.1 = k)) m.

Definition has {V} (k : string) (m : t V) : bool :=
  match get k m with Some _ => true | None => false end.

Fixpoint set {V} (k : string) (v : V) (m : t V) : t V :=
  match m with
  | [] => [(k, v)]
  | (k', v') :: rest =>
      if decide (k' = k) then (k, v) :: rest else (k', v') :: set k v rest
  end.

(** The keys of a [Map] are distinct, so removing every entry with the key
    removes the one there is. *)
Definition delete {V} (k : string) (m : t V) : t V :=
  filter (λ kv, kv.1 ≠ k) m.

Definition size {V} (m : t V) : nat := length m.

End JsMap.

(** ** Messages *)

(** [metadata] of a chat frame; [delayMs] may be missing. *)
Record Metadata := mkMetadata { simulateDelay : bool; delayMs : option nat }.

(** The message object built by [CausalChatApp.handleChatMessage]. *)
Module Message.
Record t := mk {
  id : string;
  userId : string;
  username : string;
  text : string;
  vectorClock : ClockArray;
  timestamp : nat;
  roomId : string;
  metadata : option Metadata;
  isOwn : bool
}.
End Message.

(** ** CausalOrderEngine *)

Module CausalOrderEngine.

Record BufferEntry := mkEntry {
  message : Message.t;
  receivedAt : nat;
  attempts : nat
}.

Record DeliveredRecord := mkDelivered {
  d_id : string;
  d_timestamp : nat;
  deliveredAt : nat;
  d_waitTime : option Z
}.

Record Stats := mkStats {
  totalProcessed : nat;
  deliveredImmediately : nat;
  buffered : nat;
  maxBufferSize : nat
}.

Record t := mk {
  messageBuffer : JsMap.t BufferEntry;
  deliveredMessages : list DeliveredRecord;
  stats : Stats
}.

(** What [processMessage] returns; [action] and [reason] are the strings of
    the source. *)
Record Result := mkResult {
  isCausallyReady : bool;
  messageId : string;
  action : string;
  reason : option string
}.

(** An element of the array [checkBufferedMessages] returns. *)
Record ReadyMessage := mkReady {
  r_messageId : string;
  r_message : Message.t;
  r_receivedAt : nat;
  r_attempts : nat;
  r_waitTime : Z
}.

(** What [deliverMessage] returns when the id is buffered. *)
Record DeliveredInfo := mkInfo {
  i_message : Message.t;
  i_receivedAt : nat;
  i_attempts : nat;
  i_waitTime : Z
}.

(** [Date.now() - receivedAt]: negative when the clock of the machine was
    set back in between. *)
Definition elapsed (now receivedAt : nat) : Z := (Z.of_nat now - Z.of_nat receivedAt)%Z.

(** [constructor()] *)
Definition new : t := mk [] [] (mkStats 0 0 0 0).

(** [processMessage(message, vectorClock, senderId)]; [now] is the value
    of [Date.now()]. The clock object is passed in and comes back as the
    readiness check left it. *)
Definition processMessage (message : Message.t) (vectorClock : VCM.t)
    (senderId : string) (now : nat) (this : t) : Result * t * VCM.t :=
  let st := stats this in
  let st1 := mkStats (totalProcessed st + 1) (deliveredImmediately st)
               (buffered st) (maxBufferSize st) in
  let '(isReady, vectorClock') :=
    VCM.isCausallyReady (Message.vectorClock message) senderId vectorClock in
  if isReady then
    let st2 := mkStats (totalProcessed st1) (deliveredImmediately st1 + 1)
                 (buffered st1) (maxBufferSize st1) in
    let delivered := deliveredMessages this ++
      [mkDelivered (Message.id message) (Message.timestamp message) now None] in
    (mkResult true (Message.id message) "deliver_immediately" None,
     mk (messageBuffer this) delivered st2, vectorClock')
  else
    let buffer := JsMap.set (Message.id message) (mkEntry message now 0)
                    (messageBuffer this) in
    let st2 := mkStats (totalProcessed st1) (deliveredImmediately st1)
                 (buffered st1 + 1)
                 (Nat.max (maxBufferSize st1) (JsMap.size buffer)) in
    (mkResult false (Message.id message) "buffered"
       (Some "waiting_for_causal_dependencies"),
     mk buffer (deliveredMessages this) st2, vectorClock').

(** The loop of [checkBufferedMessages] over the entries of the buffer, in
    their order: a ready entry is pushed on [readyMessages], another one
    has its [attempts] incremented in place. *)
Fixpoint check_loop (entries : JsMap.t BufferEntry) (vectorClock : VCM.t)
    (now : nat) : list ReadyMessage * JsMap.t BufferEntry * VCM.t :=
  match entries with
  | [] => ([], [], vectorClock)
  | (mid, bufferEntry) :: rest =>
      let m := message bufferEntry in
      let '(can, vectorClock1) :=
        VCM.canDeliverBufferedMessage (Message.vectorClock m) (Message.userId m)
          vectorClock in
      let '(readyRest, rest', vectorClock2) := check_loop rest vectorClock1 now in
      if can then
        (mkReady mid m (receivedAt bufferEntry) (attempts bufferEntry)
           (elapsed now (receivedAt bufferEntry)) :: readyRest,
         (mid, bufferEntry) :: rest', vectorClock2)
      else
        (readyRest,
         (mid, mkEntry m (receivedAt bufferEntry) (attempts bufferEntry + 1))
           :: rest',
         vectorClock2)
  end.

(** [checkBufferedMessages(vectorClock)] *)
Definition checkBufferedMessages (vectorClock : VCM.t) (now : nat) (this : t)
    : list ReadyMessage * t * VCM.t :=
  let '(readyMessages, buffer, vectorClock') :=
    check_loop (messageBuffer this) vectorClock now in
  (readyMessages, mk buffer (deliveredMessages this) (stats this), vectorClock').

(** [deliverMessage(messageId)]; [None] is the [null] of the source. *)
Definition deliverMessage (mid : string) (now : nat) (this : t)
    : option DeliveredInfo * t :=
  match JsMap.get mid (messageBuffer this) with
  | None => (None, this)
  | Some bufferEntry =>
      let m := message bufferEntry in
      let wait := elapsed now (receivedAt bufferEntry) in
      (Some (mkInfo m (receivedAt bufferEntry) (attempts bufferEntry) wait),
       mk (JsMap.delete mid (messageBuffer this))
          (deliveredMessages this ++
             [mkDelivered mid (Message.timestamp m) now (Some wait)])
          (stats this))
  end.

(** [reset()] *)
Definition reset (this : t) : t := new.

(** An element of the array [getBufferedMessages] returns. *)
Record BufferedView := mkView {
  v_id : string;
  v_message : Message.t;
  v_receivedAt : nat;
  v_attempts : nat;
  v_waitTime : Z
}.

(** [getBufferedMessages()] *)
Definition getBufferedMessages (now : nat) (this : t) : list BufferedView :=
  map (λ kv, mkView kv.1 (message kv.2) (receivedAt kv.2) (attempts kv.2)
               (elapsed now (receivedAt kv.2)))
      (messageBuffer this).

(** What [getStats] returns: the counters, the size of the buffer and the
    number of delivered messages. *)
Record StatsView := mkStatsView {
  s_totalProcessed : nat;
  s_deliveredImmediately : nat;
  s_buffered : nat;
  s_maxBufferSize : nat;
  currentBufferSize : nat;
  totalDelivered : nat
}.

(** [getStats()] *)
Definition getStats (this : t) : StatsView :=
  mkStatsView (totalProcessed (stats this)) (deliveredImmediately (stats this))
    (buffered (stats this)) (maxBufferSize (stats this))
    (JsMap.size (messageBuffer this)) (length (deliveredMessages this)).

(** The calls a user of the engine can make, each with the arguments and
    the time of the call, and the engine they leave. *)
Inductive Op :=
  | OpProcessMessage (m : Message.t) (vc : VCM.t) (senderId : string) (now : nat)
  | OpCheckBufferedMessages (vc : VCM.t) (now : nat)
  | OpDeliverMessage (mid : string) (now : nat)
  | OpReset.

Definition step (this : t) (o : Op) : t :=
  match o with
  | OpProcessMessage m vc senderId now => (processMessage m vc senderId now this).1.2
  | OpCheckBufferedMessages vc now => (checkBufferedMessages vc now this).1.2
  | OpDeliverMessage mid now => (deliverMessage mid now this).2
  | OpReset => reset this
  end.

Definition run (ops : list Op) : t := foldl step new ops.

End CausalOrderEngine.

Module Engine := CausalOrderEngine.

(** ** CausalChatApp (the part that handles chat frames) *)

(** A [chat] frame as the client receives it; a field that may be missing
    is an option. *)
Record ChatData := mkChatData {
  data_id : option string;
  data_userId : string;
  data_username : string;
  data_text : string;
  data_vectorClock : option ClockArray;
  data_timestamp : option nat;
  data_roomId : option string;
  data_metadata : option Metadata
}.

(** [x || y] on strings and numbers: a missing, empty or zero [x] gives [y]. *)
Definition or_string (x : option string) (y : string) : string :=
  match x with
  | Some s => if decide (s = "") then y else s
  | None => y
  end.

Definition or_nat (x : option nat) (y : nat) : nat :=
  match x with
  | Some 0 | None => y
  | Some n => n
  end.

(** [index = findIndex(m => m.id === messageId); if (index !== -1) splice(index, 1)] *)
Fixpoint remove_first (mid : string) (l : list Message.t) : list Message.t :=
  match l with
  | [] => []
  | m :: rest =>
      if decide (Message.id m = mid) then rest else m :: remove_first mid rest
  end.

Module CausalChatApp.

(** The calls a handler makes on the clock, on the engine and on the
    presentation, in the order in which it makes them. *)
Inductive Call :=
  | CallAddUser (uid : string)
  | CallProcessMessage (mid : string)
  | CallDisplayMessage (mid : string)
  | CallBufferMessage (mid : string)
  | CallCheckBufferedMessages
  | CallDeliverMessage (mid : string).

#[global] Instance Call_eq_dec : EqDecision Call.
Proof. solve_decision. Defined.

(** The application once the [init] frame has set [userId] and created
    [vectorClock]: the guards [if (this.vectorClock)] are then taken.
    [calls] records the calls made so far. *)
Record t := mk {
  userId : string;
  vectorClock : VCM.t;
  causalEngine : Engine.t;
  users : gmap string string;
  messages : list Message.t;
  bufferedMessages : list Message.t;
  currentRoom : string;
  calls : list Call
}.

Definition with_clock (vc : VCM.t) (this : t) : t :=
  mk (userId this) vc (causalEngine this) (users this) (messages this)
     (bufferedMessages this) (currentRoom this) (calls this).

Definition with_engine (e : Engine.t) (this : t) : t :=
  mk (userId this) (vectorClock this) e (users this) (messages this)
     (bufferedMessages this) (currentRoom this) (calls this).

Definition log (c : Call) (this : t) : t :=
  mk (userId this) (vectorClock this) (causalEngine this) (users this)
     (messages this) (bufferedMessages this) (currentRoom this)
     (calls this ++ [c]).

(** [handleInit(data)] on a fresh application. *)
Definition new (clientId : string) : t :=
  mk clientId (VCM.new clientId) Engine.new ∅ [] [] "main" [].

(** What the call of a method that is not there raises. *)
Definition merge_is_not_a_function : JsError :=
  TypeError "this.vectorClock.merge is not a function".

(** [this.vectorClock.merge(snapshot)]. The object is a
    [VectorClockManager], whose class defines no [merge]: the value called
    is [undefined], the call raises, and nothing has been changed. *)
Definition merge_clock (snapshot : ClockArray) (this : t) : Completion t :=
  Throw merge_is_not_a_function this.

(** [displayMessage(message)]: the message joins [this.messages] and goes
    to the user interface. *)
Definition displayMessage (message : Message.t) (this : t) : t :=
  log (CallDisplayMessage (Message.id message))
      (mk (userId this) (vectorClock this) (causalEngine this) (users this)
          (messages this ++ [message]) (bufferedMessages this)
          (currentRoom this) (calls this)).

(** [bufferMessage(message)] *)
Definition bufferMessage (message : Message.t) (this : t) : t :=
  log (CallBufferMessage (Message.id message))
      (mk (userId this) (vectorClock this) (causalEngine this) (users this)
          (messages this) (bufferedMessages this ++ [message])
          (currentRoom this) (calls this)).

(** The body of [readyMessages.forEach(({ messageId }) => ...)]. *)
Definition deliver_one (now : nat) (this : t) (r : Engine.ReadyMessage)
    : Completion t :=
  let mid := Engine.r_messageId r in
  let '(delivered, engine) := Engine.deliverMessage mid now (causalEngine this) in
  let this1 := log (CallDeliverMessage mid) (with_engine engine this) in
  match delivered with
  | None => Normal this1
  | Some d =>
      let m := Engine.i_message d in
      let this2 := displayMessage m this1 in
      let this3 :=
        mk (userId this2) (vectorClock this2) (causalEngine this2) (users this2)
           (messages this2) (remove_first mid (bufferedMessages this2))
           (currentRoom this2) (calls this2) in
      merge_clock (Message.vectorClock m) this3
  end.

(** [deliverBufferedMessages()] *)
Definition deliverBufferedMessages (now : nat) (this : t) : Completion t :=
  let '(readyMessages, engine, vc) :=
    Engine.checkBufferedMessages (vectorClock this) now (causalEngine this) in
  let this1 := log CallCheckBufferedMessages (with_engine engine (with_clock vc this)) in
  forEach (deliver_one now) readyMessages this1.

(** The message object [handleChatMessage] builds from the frame; [fresh]
    is the id generated when the frame has none. *)
Definition message_of (data : ChatData) (fresh : string) (now : nat) (this : t)
    : Message.t :=
  Message.mk (or_string (data_id data) fresh) (data_userId data)
    (data_username data) (data_text data)
    (default [] (data_vectorClock data))
    (or_nat (data_timestamp data) now)
    (or_string (data_roomId data) (currentRoom this))
    (data_metadata data)
    (bool_decide (data_userId data = userId this)).

(** The block [if (!this.users.has(data.userId)) { ... }] of
    [handleChatMessage]: a sender that is not among the users joins them
    and the clock. *)
Definition ensure_sender (data : ChatData) (this : t) : t :=
  match users this !! data_userId data with
  | Some _ => this
  | None =>
      log (CallAddUser (data_userId data))
        (mk (userId this)
            (VCM.addUser (data_userId data) (vectorClock this)).2
            (causalEngine this)
            (<[data_userId data := data_username data]> (users this))
            (messages this) (bufferedMessages this) (currentRoom this)
            (calls this))
  end.

(** [handleChatMessage(data)] *)
Definition handleChatMessage (data : ChatData) (fresh : string) (now : nat)
    (this : t) : Completion t :=
  if bool_decide (data_userId data = "") || bool_decide (data_username data = "")
  then Normal this
  else
    let this1 := ensure_sender data this in
    let message := message_of data fresh now this1 in
    (* [this.vectorClock] is set, and [message.vectorClock] is an array,
       which is truthy even when empty: the guard of the merge is taken *)
    and_then (merge_clock (Message.vectorClock message) this1) (λ this2,
      let '(result, engine, vc) :=
        Engine.processMessage message (vectorClock this2) (data_userId data) now
          (causalEngine this2) in
      let this3 :=
        log (CallProcessMessage (Message.id message))
            (with_engine engine (with_clock vc this2)) in
      if Engine.isCausallyReady result then
        deliverBufferedMessages now (displayMessage message this3)
      else Normal (bufferMessage message this3)).

(** An element of [data.users] in a [user_list] frame; a missing [id] or
    [username] is the empty string. The [joinedAt] and [vectorClock] the
    frame also carries are only stored for display. *)
Record User := mkUser { user_id : string; user_username : string }.

(** [user && user.id && user.username]; [None] is a [null] element. *)
Definition valid_user (u : option User) : option User :=
  match u with
  | Some u =>
      if bool_decide (user_id u = "") || bool_decide (user_username u = "")
      then None else Some u
  | None => None
  end.

(** The body of [data.users.forEach(user => ...)] of [handleUserList], on
    the new user map and on the application. *)
Definition list_user (acc : gmap string string * t) (u : option User)
    : gmap string string * t :=
  match valid_user u with
  | None => acc
  | Some u =>
      (<[user_id u := user_username u]> acc.1,
       log (CallAddUser (user_id u))
           (with_clock (VCM.addUser (user_id u) (vectorClock acc.2)).2 acc.2))
  end.

(** [handleUserList(data)]; [selfName] is the value of [this.username].
    [None] stands for a frame whose [users] is missing or is no array. The
    call of [syncWithUsers] is not among the calls the log records. *)
Definition handleUserList (us : option (list (option User))) (selfName : string)
    (this : t) : t :=
  match us with
  | None => this
  | Some us =>
      let '(newUsers, this1) := foldl list_user (∅, this) us in
      let '(newUsers, this2) :=
        if negb (bool_decide (userId this = ""))
           && negb (bool_decide (is_Some (newUsers !! userId this)))
        then (<[userId this := selfName]> newUsers,
              log (CallAddUser (userId this))
                  (with_clock (VCM.addUser (userId this) (vectorClock this1)).2
                     this1))
        else (newUsers, this1) in
      let vc := (VCM.syncWithUsers (map_to_list newUsers).*1 (vectorClock this2)).2 in
      mk (userId this2) vc (causalEngine this2) newUsers (messages this2)
         (bufferedMessages this2) (currentRoom this2) (calls this2)
  end.

(** [handleHistory(data)]: the messages of the frame go through
    [handleChatMessage] in the order of the frame, until one of the calls
    raises. A message comes with the id generated and the time read while
    it is handled. [None] stands for a frame whose [messages] is missing or
    is no array. *)
Definition handleHistory (msgs : option (list (ChatData * string * nat)))
    (this : t) : Completion t :=
  match msgs with
  | None => Normal this
  | Some l =>
      forEach (λ app d, handleChatMessage d.1.1 d.1.2 d.2 app) l this
  end.

(** The [chat] frame the client sends. *)
Record OutChat := mkOutChat {
  out_text : string;
  out_vectorClock : ClockArray;
  out_metadata : Metadata
}.

(** The frames the client sends here: a [chat] frame or a [typing] frame. *)
Inductive OutFrame :=
  | OutChatFrame (c : OutChat)
  | OutTyping (isTyping : bool).

(** [sendTestMessage(text, delayMs)]; [isConnected] is the value of
    [this.isConnected]. The flag [isTest] of the metadata, which nothing
    reads, is left out. *)
Definition sendTestMessage (text : string) (delayMs : nat) (isConnected : bool)
    (this : t) : t * list OutFrame :=
  if negb isConnected then (this, [])
  else
    let '(vectorClock, vc) := VCM.increment (vectorClock this) in
    (with_clock vc this,
     [OutChatFrame
        (mkOutChat text vectorClock (mkMetadata (0 <? delayMs) (Some delayMs)))]).

(** [sendMessage()]. [text] is the trimmed content of the input field,
    [simulationEnabled] and [delayMs] are the state of the simulation
    controls, [selfName] is the value of [this.username], [localId] is the
    id [local_<now>] of the optimistic copy, which has no room. A frame
    without simulation carries the metadata [{}]. The handler ends with
    [sendTyping(false)]. *)
Definition sendMessage (text : string) (isConnected simulationEnabled : bool)
    (delayMs : nat) (selfName localId : string) (now : nat) (this : t)
    : t * list OutFrame :=
  if bool_decide (text = "") || negb isConnected then (this, [])
  else
    let '(vectorClock, vc) := VCM.increment (vectorClock this) in
    let metadata :=
      if simulationEnabled then mkMetadata true (Some delayMs)
      else mkMetadata false None in
    let localMessage :=
      Message.mk localId (userId this) selfName text vectorClock now ""
        (Some metadata) true in
    (displayMessage localMessage (with_clock vc this),
     [OutChatFrame (mkOutChat text vectorClock metadata); OutTyping false]).

End CausalChatApp.

Module App := CausalChatApp.

(** ** ChatServer (the hub) *)

Module ChatServer.

(** The value of [this.clients.get(ws)]. [ws] stands for the socket, the
    key of the map; [readyState] is the state of that socket. A client
    always has a [vectorClock]: [handleConnection] creates it. *)
Record Client := mkClient {
  id : string;
  ws : nat;
  readyState : nat;
  username : option string;
  roomId : string;
  joinedAt : nat;
  vectorClock : gmap string nat
}.

Record Room := mkRoom {
  room_id : string;
  name : string;
  users : gset string;
  created : nat
}.

(** The chat message the hub builds, stores and broadcasts. *)
Record ChatMessage := mkChat {
  m_id : string;
  m_userId : string;
  m_username : option string;
  m_text : string;
  m_vectorClock : ClockArray;
  m_timestamp : nat;
  m_roomId : string;
  m_metadata : option Metadata
}.

Record UserInfo := mkUserInfo {
  u_id : string;
  u_username : option string;
  u_joinedAt : nat;
  u_vectorClock : ClockArray
}.

Record UserStats := mkUserStats {
  messagesSent : nat;
  messagesReceived : nat;
  joinCount : nat
}.

(** The frames the hub sends. *)
Inductive Frame :=
  | FUserList (us : list UserInfo) (timestamp : nat)
  | FSystem (message : string) (timestamp : nat) (userId : option string)
  | FJoinSuccess (room : Room) (us : list UserInfo) (messageCount : nat)
  | FChat (m : ChatMessage)
  | FMessageDelivered (messageId : string) (timestamp : nat)
  | FHistory (messages : list ChatMessage) (total : nat).

(** What a handler does to the outside, in order: [ws.send] of a frame, or
    [setTimeout] of a later [broadcastToRoom(roomId, frame, excludeWs)]. *)
Inductive Action :=
  | Send (ws : nat) (f : Frame)
  | SetTimeout (delay : nat) (roomId : string) (f : Frame) (excludeWs : option nat).

Record t := mk {
  clients : list Client;
  rooms : gmap string Room;
  messageHistory : gmap string (list ChatMessage);
  userStats : gmap string UserStats
}.

(** The frames received from a client. *)
Record JoinData := mkJoin { j_username : option string; j_roomId : option string }.
Record ChatRequest := mkChatRequest { c_text : string; c_metadata : option Metadata }.

(** [constructor()] with [initDefaultRoom()] *)
Definition new (now : nat) : t :=
  mk [] (<["main" := mkRoom "main" "Main Chat Room" ∅ now]> ∅)
     (<["main" := []]> ∅) ∅.

(** [handleConnection(ws)]; [clientId] is the value of [uuidv4()]. *)
Definition handleConnection (w : nat) (clientId : string) (now : nat) (this : t) : t :=
  mk (clients this ++ [mkClient clientId w 1 None "main" now ∅])
     (rooms this) (messageHistory this) (userStats this).

(** [this.clients.get(ws)] *)
Definition client_of (w : nat) (this : t) : option Client :=
  find (λ c, bool_decide (ws c = w)) (clients this).

(** A change of the client object is seen through the map that holds it. *)
Definition store_client (c : Client) (this : t) : t :=
  mk (map (λ c', if decide (ws c' = ws c) then c else c') (clients this))
     (rooms this) (messageHistory this) (userStats this).

(** A string is truthy when it is there and not empty. *)
Definition truthy (s : option string) : bool :=
  match s with Some s => negb (bool_decide (s = "")) | None => false end.

(** [getRoomUsers(roomId)] *)
Definition getRoomUsers (rid : string) (this : t) : list UserInfo :=
  map (λ c, mkUserInfo (id c) (username c) (joinedAt c) (map_to_list (vectorClock c)))
      (filter (λ c, roomId c = rid ∧ truthy (username c) = true) (clients this)).

(** [broadcastToRoom(roomId, message, excludeWs)] *)
Definition broadcastToRoom (rid : string) (f : Frame) (excludeWs : option nat)
    (this : t) : list Action :=
  match rooms this !! rid with
  | None => []
  | Some _ =>
      map (λ c, Send (ws c) f)
          (filter (λ c, roomId c = rid ∧ Some (ws c) ≠ excludeWs ∧ readyState c = 1)
                  (clients this))
  end.

(** [broadcastUserList(roomId)] *)
Definition broadcastUserList (rid : string) (now : nat) (this : t) : list Action :=
  broadcastToRoom rid (FUserList (getRoomUsers rid this) now) None this.

(** The loop [this.clients.forEach(existingClient => ...)] of [handleJoin]
    on the new clock of the client that joins. *)
Definition copy_times (self : Client) (existing : list Client)
    (clock : gmap string nat) : gmap string nat :=
  foldl (λ clk existingClient,
           if bool_decide (roomId existingClient = roomId self)
              && negb (bool_decide (id existingClient = id self))
           then <[id existingClient :=
                    read (vectorClock existingClient) (id existingClient)]> clk
           else clk)
        clock existing.

(** [handleJoin(client, data)] *)
Definition handleJoin (client : Client) (data : JoinData) (now : nat) (this : t)
    : t * list Action :=
  let client1 :=
    mkClient (id client) (ws client) (readyState client) (j_username data)
      (or_string (j_roomId data) "main") (joinedAt client) (vectorClock client) in
  let this1 := store_client client1 this in
  match rooms this1 !! roomId client1 with
  | None => (this1, [])
  | Some room =>
      let room' := mkRoom (room_id room) (name room) ({[id client1]} ∪ users room)
                     (created room) in
      let this2 := mk (clients this1) (<[roomId client1 := room']> (rooms this1))
                     (messageHistory this1) (userStats this1) in
      let clock := <[id client1 := 0]> (copy_times client1 (clients this2) ∅) in
      let client2 :=
        mkClient (id client1) (ws client1) (readyState client1) (username client1)
          (roomId client1) (joinedAt client1) clock in
      let this3 := store_client client2 this2 in
      let joined := (default "null" (username client2) ++ " joined the chat")%string in
      (this3,
       broadcastUserList (roomId client2) now this3 ++
       broadcastToRoom (roomId client2)
         (FSystem joined now (Some (id client2))) None this3 ++
       [Send (ws client2)
          (FJoinSuccess room' (getRoomUsers (roomId client2) this3)
             (length (default [] (messageHistory this3 !! roomId client2))))])
  end.

(** [updateUserStats(userId, 'messagesSent')] *)
Definition updateUserStats (uid : string) (this : t) : t :=
  let s := default (mkUserStats 0 0 1) (userStats this !! uid) in
  mk (clients this) (rooms this) (messageHistory this)
     (<[uid := mkUserStats (messagesSent s + 1) (messagesReceived s) (joinCount s)]>
        (userStats this)).

(** [data.metadata?.simulateDelay] *)
Definition wants_delay (md : option Metadata) : bool :=
  match md with Some m => simulateDelay m | None => false end.

(** [data.metadata.delayMs || 1000] *)
Definition timer_delay (md : option Metadata) : nat :=
  or_nat (md ≫= delayMs) 1000.

(** [handleChat(client, data)]; [uuid] is the value of [uuidv4()]. *)
Definition handleChat (client : Client) (data : ChatRequest) (uuid : string)
    (now : nat) (this : t) : t * list Action :=
  let rid := roomId client in
  match rooms this !! rid with
  | None => (this, [])
  | Some room =>
      let currentValue := read (vectorClock client) (id client) in
      let client1 :=
        mkClient (id client) (ws client) (readyState client) (username client)
          (roomId client) (joinedAt client)
          (<[id client := currentValue + 1]> (vectorClock client)) in
      let this1 := store_client client1 this in
      let vectorClockArray := map_to_list (vectorClock client1) in
      let message :=
        mkChat uuid (id client1) (username client1) (c_text data)
          vectorClockArray now rid (c_metadata data) in
      let history := default [] (messageHistory this1 !! rid) ++ [message] in
      let this2 := mk (clients this1) (rooms this1)
                      (<[rid := history]> (messageHistory this1)) (userStats this1) in
      let this3 := updateUserStats (id client1) this2 in
      let sent :=
        if wants_delay (c_metadata data)
        then [SetTimeout (timer_delay (c_metadata data)) rid (FChat message)
                (Some (ws client1))]
        else broadcastToRoom rid (FChat message) (Some (ws client1)) this3 in
      (this3, sent ++ [Send (ws client1) (FMessageDelivered uuid now)])
  end.

(** [history.slice(-50)] *)
Definition slice_last (n : nat) {A} (l : list A) : list A := drop (length l - n) l.

(** [sendHistory(client)] *)
Definition sendHistory (client : Client) (this : t) : list Action :=
  let history := default [] (messageHistory this !! roomId client) in
  [Send (ws client) (FHistory (slice_last 50 history) (length history))].

(** What the timer set by [handleChat] does when it fires. *)
Definition fire (a : Action) (this : t) : list Action :=
  match a with
  | SetTimeout _ rid f excludeWs => broadcastToRoom rid f excludeWs this
  | Send _ _ => []
  end.

(** The sockets [broadcastToRoom(roomId, _, excludeWs)] sends to. *)
Definition recipients (rid : string) (excludeWs : option nat) (this : t) : list nat :=
  match rooms this !! rid with
  | None => []
  | Some _ =>
      map ws
          (filter (λ c, roomId c = rid ∧ Some (ws c) ≠ excludeWs ∧ readyState c = 1)
                  (clients this))
  end.

(** [sendUserList(client)] *)
Definition sendUserList (client : Client) (now : nat) (this : t) : list Action :=
  [Send (ws client) (FUserList (getRoomUsers (roomId client) this) now)].

(** A frame the hub receives, after [JSON.parse]; [InOther] is a frame
    whose [type] is missing or is none of the six. *)
Inductive InFrame :=
  | InJoin (d : JoinData)
  | InChat (d : ChatRequest)
  | InTyping (isTyping : bool)
  | InRequestHistory
  | InGetUsers
  | InPing
  | InOther.

(** What the hub does to the outside: the actions above, the relay of a
    [user_typing] frame, a [pong], and the timer of [handleDisconnect],
    which calls [broadcastUserList(roomId)] when it fires. *)
Inductive Out :=
  | Act (a : Action)
  | SendTyping (w : nat) (userId : string) (username : option string)
      (isTyping : bool)
  | SendPong (w : nat)
  | SetTimeoutUserList (delay : nat) (roomId : string).

(** [handleDisconnect(ws)] *)
Definition handleDisconnect (w : nat) (now : nat) (this : t) : t * list Out :=
  match client_of w this with
  | None => (this, [])
  | Some client =>
      let '(this1, outs) :=
        match rooms this !! roomId client with
        | None => (this, [])
        | Some room =>
            let room' := mkRoom (room_id room) (name room)
                           (users room ∖ {[id client]}) (created room) in
            let this1 := mk (clients this) (<[roomId client := room']> (rooms this))
                           (messageHistory this) (userStats this) in
            let left := (default "null" (username client) ++ " left the chat")%string in
            (this1,
             map Act (broadcastToRoom (roomId client) (FSystem left now None)
                        None this1)
             ++ [SetTimeoutUserList 100 (roomId client)])
        end in
      (mk (filter (λ c, ws c ≠ w) (clients this1)) (rooms this1)
          (messageHistory this1) (userStats this1),
       outs)
  end.

(** [handleError(ws, error)] *)
Definition handleError (w : nat) (now : nat) (this : t) : t * list Out :=
  handleDisconnect w now this.

(** [handleMessage(ws, rawData)]; [None] is a text [JSON.parse] rejects,
    whose exception the handler catches. *)
Definition handleMessage (w : nat) (frame : option InFrame) (uuid : string)
    (now : nat) (this : t) : t * list Out :=
  match frame with
  | None => (this, [])
  | Some frame =>
      match client_of w this with
      | None => (this, [])
      | Some client =>
          match frame with
          | InJoin d =>
              let '(this', acts) := handleJoin client d now this in
              (this', map Act acts)
          | InChat d =>
              let '(this', acts) := handleChat client d uuid now this in
              (this', map Act acts)
          | InTyping isTyping =>
              (this,
               map (λ w', SendTyping w' (id client) (username client) isTyping)
                   (recipients (roomId client) (Some w) this))
          | InRequestHistory => (this, map Act (sendHistory client this))
          | InGetUsers => (this, map Act (sendUserList client now this))
          | InPing => (this, [SendPong w])
          | InOther => (this, [])
          end
      end
  end.

(** What happens at the hub: a connection, a frame, a close or an error on
    a socket. *)
Inductive Event :=
  | EvConnection (w : nat) (clientId : string) (now : nat)
  | EvMessage (w : nat) (frame : option InFrame) (uuid : string) (now : nat)
  | EvClose (w : nat) (now : nat).

Definition on_event (this : t) (ev : Event) : t * list Out :=
  match ev with
  | EvConnection w clientId now => (handleConnection w clientId now this, [])
  | EvMessage w frame uuid now => handleMessage w frame uuid now this
  | EvClose w now => handleDisconnect w now this
  end.

End ChatServer.

Module Server := ChatServer.

(** ** UIManager (the helpers that compute) *)

Module UIManager.

(** A JavaScript string is a sequence of UTF-16 code units, and [length]
    and [substring] count them. *)
Abbreviation JsString := (list nat).

(** The string ["..."]. *)
Definition dots : JsString := [46; 46; 46].

(** [truncateText(text, maxLength)] *)
Definition truncateText (text : JsString) (maxLength : nat) : JsString :=
  match text with
  | [] => []
  | _ =>
      if length text <=? maxLength then text
      else take maxLength text ++ dots
  end.

(** The letter [getTimeAgo] puts after the number. *)
Inductive TimeUnit := Seconds | Minutes | Hours | Days.

(** Milliseconds in a unit. *)
Definition millis (u : TimeUnit) : Z :=
  match u with
  | Seconds => 1000
  | Minutes => 60000
  | Hours => 3600000
  | Days => 86400000
  end%Z.

(** [getTimeAgo(timestamp)]: the number and the unit of the string it
    returns; [Math.floor(diff / n)] is the division of [Z], which rounds
    down. *)
Definition getTimeAgo (now timestamp : Z) : Z * TimeUnit :=
  let diff := (now - timestamp)%Z in
  if (diff <? 60000)%Z then ((diff / 1000)%Z, Seconds)
  else if (diff <? 3600000)%Z then ((diff / 60000)%Z, Minutes)
  else if (diff <? 86400000)%Z then ((diff / 3600000)%Z, Hours)
  else ((diff / 86400000)%Z, Days).

End UIManager.

(** ** Notions used in the statements *)

(** The answer of the readiness check for a buffer entry. *)
Definition entry_ready (vc : VCM.t) (kv : string * Engine.BufferEntry) : bool :=
  let m := Engine.message kv.2 in
  ready (Message.vectorClock m) (Message.userId m) vc.

(** The element [checkBufferedMessages] pushes for a ready entry. *)
Definition ready_of (now : nat) (kv : string * Engine.BufferEntry)
    : Engine.ReadyMessage :=
  Engine.mkReady kv.1 (Engine.message kv.2) (Engine.receivedAt kv.2)
    (Engine.attempts kv.2) (Engine.elapsed now (Engine.receivedAt kv.2)).

(** The entry as [checkBufferedMessages] leaves it. *)
Definition retried (vc : VCM.t) (kv : string * Engine.BufferEntry)
    : string * Engine.BufferEntry :=
  if entry_ready vc kv then kv
  else (kv.1, Engine.mkEntry (Engine.message kv.2) (Engine.receivedAt kv.2)
                (Engine.attempts kv.2 + 1)).

(** No entry of the buffer is causally ready at the clock. *)
Definition quiescent (e : Engine.t) (vc : VCM.t) : Prop :=
  ∀ kv, kv ∈ Engine.messageBuffer e → entry_ready vc kv = false.

(** The order the specification asks of the messages that become ready in
    one pass (4.2): happens-before of the stamped clocks first, then
    [received_at] ascending, then the message id. *)
Definition spec_happens_before (c1 c2 : ClockArray) : Prop :=
  (∀ p, read (Map_of_entries c1) p ≤ read (Map_of_entries c2) p) ∧
  (∃ p, read (Map_of_entries c1) p < read (Map_of_entries c2) p).

Definition spec_before (r1 r2 : Engine.ReadyMessage) : Prop :=
  let c1 := Message.vectorClock (Engine.r_message r1) in
  let c2 := Message.vectorClock (Engine.r_message r2) in
  spec_happens_before c1 c2 ∨
  (¬ spec_happens_before c1 c2 ∧ ¬ spec_happens_before c2 c1 ∧
   (Engine.r_receivedAt r1 < Engine.r_receivedAt r2 ∨
    (Engine.r_receivedAt r1 = Engine.r_receivedAt r2 ∧
     String.ltb (Engine.r_messageId r1) (Engine.r_messageId r2) = true))).

(** A sequence follows that order when no element must come before an
    earlier one. *)
Definition spec_ordered (l : list Engine.ReadyMessage) : Prop :=
  ∀ i j r1 r2, i < j → l !! i = Some r1 → l !! j = Some r2 → ¬ spec_before r2 r1.

(** What the engine keeps true of its buffer and of its counters. *)
Definition engine_wf (e : Engine.t) : Prop :=
  NoDup (Engine.messageBuffer e).*1 ∧
  (∀ kv, kv ∈ Engine.messageBuffer e → Message.id (Engine.message kv.2) = kv.1) ∧
  Engine.totalProcessed (Engine.stats e) =
    Engine.deliveredImmediately (Engine.stats e) + Engine.buffered (Engine.stats e) ∧
  length (Engine.messageBuffer e) ≤ Engine.maxBufferSize (Engine.stats e) ∧
  Engine.deliveredImmediately (Engine.stats e) ≤ length (Engine.deliveredMessages e) ∧
  length (Engine.messageBuffer e) + length (Engine.deliveredMessages e)
    ≤ Engine.totalProcessed (Engine.stats e).

(** The entry of a buffer after [n] passes at a clock at which it is not
    ready. *)
Definition retried_n (n : nat) (vc : VCM.t) (kv : string * Engine.BufferEntry)
    : string * Engine.BufferEntry :=
  if entry_ready vc kv then kv
  else (kv.1, Engine.mkEntry (Engine.message kv.2) (Engine.receivedAt kv.2)
                (Engine.attempts kv.2 + n)).

(** The sessions of a hub have distinct sockets and distinct ids. *)
Definition hub_wf (srv : Server.t) : Prop :=
  NoDup (Server.ws <$> Server.clients srv) ∧
  NoDup (Server.id <$> Server.clients srv).

(** A connection comes on a socket and with an id no session has. *)
Definition admissible (srv : Server.t) (ev : Server.Event) : Prop :=
  match ev with
  | Server.EvConnection w clientId _ =>
      (w ∉ (Server.ws <$> Server.clients srv)) ∧
      (clientId ∉ (Server.id <$> Server.clients srv))
  | _ => True
  end.

(** What the hub reads of a [chat] frame of the client: the text and the
    metadata. *)
Definition request_of (c : App.OutChat) : Server.ChatRequest :=
  Server.mkChatRequest (App.out_text c) (Some (App.out_metadata c)).

(** The ids of the users of a [user_list] frame that [handleUserList]
    takes up. *)
Definition valid_ids (us : list (option App.User)) : list string :=
  omap (λ u, App.user_id <$> App.valid_user u) us.

(** The ids the calls of [processMessage] in a log were made with. *)
Definition processed (calls : list App.Call) : list string :=
  omap (λ c, match c with App.CallProcessMessage mid => Some mid | _ => None end)
       calls.

(** A frame [handleChatMessage] does not drop. *)
Definition valid_frame (d : ChatData) : bool :=
  negb (bool_decide (data_userId d = "") || bool_decide (data_username d = "")).

(** ** Scenarios *)

(** A recipient who knows the sender but not the participant "bob". *)
Definition carol_clock : VCM.t :=
  VCM.mk "carol" (<["alice" := 0]> (<["carol" := 0]> ∅)).

Definition alice_after_bob : ClockArray := [("alice", 1); ("bob", 5)].

(** The second message of "alice", which arrives before her first. *)
Definition m2 : Message.t :=
  Message.mk "m2" "alice" "Alice" "second" [("alice", 2)] 2 "main" None false.

Definition m2_data : ChatData :=
  mkChatData (Some "m2") "alice" "Alice" "second" (Some [("alice", 2)])
    (Some 2) (Some "main") None.

(** The first message of "alice". *)
Definition m1_data : ChatData :=
  mkChatData (Some "m1") "alice" "Alice" "first" (Some [("alice", 1)])
    (Some 1) (Some "main") None.

(** Two messages that wait for the same message of "dave". *)
Definition dave_known : VCM.t :=
  VCM.mk "carol"
    (<["dave" := 0]> (<["bob" := 0]> (<["alice" := 0]> (<["carol" := 0]> ∅)))).

Definition dave_seen : VCM.t :=
  VCM.mk "carol"
    (<["dave" := 1]> (<["bob" := 0]> (<["alice" := 0]> (<["carol" := 0]> ∅)))).

Definition mb : Message.t :=
  Message.mk "b" "alice" "Alice" "from alice" [("alice", 1); ("dave", 1)] 1
    "main" None false.

Definition ma : Message.t :=
  Message.mk "a" "bob" "Bob" "from bob" [("bob", 1); ("dave", 1)] 1
    "main" None false.

(** Both are offered in the same millisecond, [mb] first. *)
Definition two_waiting : Engine.t :=
  (Engine.processMessage ma dave_known "bob" 5
     (Engine.processMessage mb dave_known "alice" 5 Engine.new).1.2).1.2.

(** The recipient "carol" holds both, and her clock has the tick of "dave"
    they wait for. *)
Definition carol_waiting : App.t :=
  App.mk "carol" dave_seen two_waiting
    (<["dave" := "Dave"]> (<["bob" := "Bob"]> (<["alice" := "Alice"]>
       (<["carol" := "Carol"]> ∅))))
    [] [mb; ma] "main" [].

(** A hub with one session that is connected but has not joined ("x") and
    one session that is about to join ("c"). *)
Definition hub_with_anonymous : Server.t :=
  Server.handleConnection 2 "c" 0 (Server.handleConnection 1 "x" 0 (Server.new 0)).

Definition carol_connected : Server.Client :=
  Server.mkClient "c" 2 1 None "main" 0 ∅.

(** A hub whose only session, "a", has joined the main room. *)
Definition alice_connected : Server.Client :=
  Server.mkClient "a" 1 1 None "main" 0 ∅.

Definition hub_with_alice : Server.t :=
  (Server.handleJoin alice_connected (Server.mkJoin (Some "Alice") None) 1
     (Server.handleConnection 1 "a" 0 (Server.new 0))).1.

(** The session on socket 1 sends [n] chat frames. *)
Definition chat_n (n : nat) (this : Server.t) : Server.t :=
  Nat.iter n
    (λ srv, match Server.client_of 1 srv with
            | Some c => (Server.handleChat c (Server.mkChatRequest "hi" None) "u" 2 srv).1
            | None => srv
            end)
    this.

(** * Properties *)

(** ** The vector clock *)

Section VectorClock.

Implicit Types (vc : VCM.t) (arr snapshot : ClockArray) (s p : string).

Lemma others_loop_frame (M : gmap string nat) s (entries : ClockArray) vc :
  (VCM.others_loop M s entries vc).2 = vc.
Proof.
  induction entries as [|[uid localTime] rest IH]; simpl; [done|].
  case_decide; [done|]. by destruct (localTime <? read M uid).
Qed.

Lemma isCausallyReady_frame arr s vc : (VCM.isCausallyReady arr s vc).2 = vc.
Proof.
  unfold VCM.isCausallyReady, mbind, VCM.VC_bind, VCM.clock_get,
    VCM.clock_entries; simpl.
  destruct (negb _); [done|]. apply others_loop_frame.
Qed.

Lemma isCausallyReady_ready arr s vc :
  VCM.isCausallyReady arr s vc = (ready arr s vc, vc).
Proof.
  unfold ready. rewrite <- (isCausallyReady_frame arr s vc) at 3.
  by destruct (VCM.isCausallyReady arr s vc).
Qed.

Lemma others_loop_true (M : gmap string nat) s (entries : ClockArray) vc :
  (VCM.others_loop M s entries vc).1 = true ↔
  ∀ uid localTime, (uid, localTime) ∈ entries → uid ≠ s → read M uid ≤ localTime.
Proof.
  induction entries as [|[uid localTime] rest IH]; simpl.
  - split; [|done]. intros _ ?? H. by apply elem_of_nil in H.
  - case_decide as Hs.
    + rewrite IH. split.
      * intros H u l [Heq|Hin]%elem_of_cons Hne; [congruence|by apply H].
      * intros H u l Hin. apply H. by right.
    + destruct (Nat.ltb_spec localTime (read M uid)) as [Hlt|Hle]; simpl.
      * split; [done|]. intros H.
        specialize (H uid localTime (list_elem_of_here _ _) Hs). lia.
      * rewrite IH. split.
        -- intros H u l [Heq|Hin]%elem_of_cons Hne; [|by apply H].
           injection Heq as -> ->. done.
        -- intros H u l Hin. apply H. by right.
Qed.

(** What the check computes: the participants it looks at, apart from the
    sender, are those with an entry in the local clock. *)
Lemma ready_true_iff arr s vc :
  ready arr s vc = true ↔
  read (Map_of_entries arr) s = read (VCM.clock vc) s + 1 ∧
  ∀ p localTime, VCM.clock vc !! p = Some localTime → p ≠ s →
    read (Map_of_entries arr) p ≤ localTime.
Proof.
  unfold ready, VCM.isCausallyReady, mbind, VCM.VC_bind, VCM.clock_get,
    VCM.clock_entries; simpl.
  destruct (Nat.eqb_spec (read (Map_of_entries arr) s) (read (VCM.clock vc) s + 1))
    as [Heq|Hne]; simpl.
  - rewrite others_loop_true. split.
    + intros H. split; [done|]. intros p l Hp. apply H.
      by apply elem_of_map_to_list.
    + intros [_ H] p l Hp. apply H. by apply elem_of_map_to_list in Hp.
  - split; [done|]. by intros [? _].
Qed.

(** The check accepts every message the specification's predicate accepts. *)
Lemma spec_ready_ready arr s vc :
  spec_ready arr s (VCM.clock vc) → ready arr s vc = true.
Proof.
  intros [Hs Ho]. apply ready_true_iff. split; [done|].
  intros p l Hp Hne. specialize (Ho p Hne). unfold read at 2 in Ho.
  by rewrite Hp in Ho.
Qed.

(** The two agree when every participant of the message clock has a local
    entry. *)
Lemma ready_spec_ready_known arr s vc :
  dom (Map_of_entries arr) ⊆ dom (VCM.clock vc) ∪ {[s]} →
  ready arr s vc = true → spec_ready arr s (VCM.clock vc).
Proof.
  intros Hdom [Hs Ho]%ready_true_iff. split; [done|].
  intros p Hne. destruct (VCM.clock vc !! p) as [l|] eqn:Hp.
  - unfold read at 2. rewrite Hp. simpl. by eapply Ho.
  - assert (Map_of_entries arr !! p = None) as HM.
    { apply not_elem_of_dom. intros Hin. apply Hdom in Hin.
      apply elem_of_union in Hin as [Hin|Hin].
      - apply elem_of_dom in Hin as [? ?]. congruence.
      - apply elem_of_singleton in Hin. done. }
    unfold read. rewrite HM, Hp. done.
Qed.

End VectorClock.

(** The scenarios of the specification, at the check: concurrent first
    messages are both ready; a second message is not ready before the
    first; a message that saw a tick the recipient has not seen is not. *)
Example ready_concurrent :
  ready [("alice", 1)] "alice" dave_known = true ∧
  ready [("bob", 1)] "bob" dave_known = true.
Proof. by vm_compute. Qed.

Example not_ready_out_of_order : ready [("alice", 2)] "alice" dave_known = false.
Proof. by vm_compute. Qed.

Example not_ready_missing_predecessor :
  ready [("alice", 1); ("bob", 1)] "bob" dave_known = false ∧
  ready [("dave", 1); ("bob", 1)] "bob" dave_seen = true.
Proof. by vm_compute. Qed.

(** C1. The check answers true for the message stamped
    [[alice, 1], [bob, 5]] from "alice" at the local clock
    [{carol: 0, alice: 0}]: "bob" has no local entry and the loop over the
    local entries never looks at him, while the predicate of the
    specification reads his local entry as 0 and refuses the message. *)
Theorem isCausallyReady_skips_unknown_participant :
  ready alice_after_bob "alice" carol_clock = true ∧
  ¬ spec_ready alice_after_bob "alice" (VCM.clock carol_clock).
Proof.
  split; [by vm_compute|].
  intros [_ H]. specialize (H "bob"). 
  assert (read (Map_of_entries alice_after_bob) "bob" = 5) as E1 by (by vm_compute).
  assert (read (VCM.clock carol_clock) "bob" = 0) as E2 by (by vm_compute).
  rewrite E1, E2 in H. assert ("bob" ≠ "alice") as Hne by done.
  specialize (H Hne). lia.
Qed.

(** C10. Evaluating readiness leaves the clock object as it was: every
    entry of the local clock keeps its value and no entry is added, for
    [isCausallyReady] and for [canDeliverBufferedMessage]. *)
Theorem readiness_check_leaves_clock (arr : ClockArray) (s : string) (vc : VCM.t) :
  (VCM.isCausallyReady arr s vc).2 = vc ∧
  (VCM.canDeliverBufferedMessage arr s vc).2 = vc ∧
  ∀ p, VCM.clock (VCM.canDeliverBufferedMessage arr s vc).2 !! p = VCM.clock vc !! p.
Proof.
  unfold VCM.canDeliverBufferedMessage.
  rewrite isCausallyReady_frame. done.
Qed.

(** ** Reading clocks and clock arrays *)

Section ClockArrays.

Implicit Types (vc : VCM.t) (snapshot : ClockArray) (p : string).

Lemma read_insert (m : gmap string nat) p q v :
  read (<[p := v]> m) q = if decide (p = q) then v else read m q.
Proof. unfold read. rewrite lookup_insert. by case_decide. Qed.

Lemma Map_of_entries_foldl_notin (m : gmap string nat) snapshot p :
  p ∉ snapshot.*1 →
  foldl (λ m kv, <[kv.1 := kv.2]> m) m snapshot !! p = m !! p.
Proof.
  revert m. induction snapshot as [|[q t] rest IH]; intros m Hp; [done|].
  simpl in *. apply not_elem_of_cons in Hp as [Hne Hp].
  rewrite IH by done. by rewrite lookup_insert_ne.
Qed.

Lemma Map_of_entries_foldl_in (m : gmap string nat) snapshot p time :
  NoDup snapshot.*1 → (p, time) ∈ snapshot →
  foldl (λ m kv, <[kv.1 := kv.2]> m) m snapshot !! p = Some time.
Proof.
  revert m. induction snapshot as [|[q t] rest IH]; intros m Hnd Hin.
  - by apply elem_of_nil in Hin.
  - simpl in *. apply NoDup_cons in Hnd as [Hq Hnd].
    apply elem_of_cons in Hin as [Heq|Hin].
    + injection Heq as <- <-. rewrite Map_of_entries_foldl_notin by done.
      by rewrite lookup_insert_eq.
    + by apply IH.
Qed.

End ClockArrays.

(** ** The causal order engine *)

Section Engine.

Implicit Types (e : Engine.t) (vc : VCM.t) (m : Message.t) (s : string).

Lemma processMessage_ready m vc s now e :
  ready (Message.vectorClock m) s vc = true →
  Engine.processMessage m vc s now e =
  (Engine.mkResult true (Message.id m) "deliver_immediately" None,
   Engine.mk (Engine.messageBuffer e)
     (Engine.deliveredMessages e ++
        [Engine.mkDelivered (Message.id m) (Message.timestamp m) now None])
     (Engine.mkStats (Engine.totalProcessed (Engine.stats e) + 1)
        (Engine.deliveredImmediately (Engine.stats e) + 1)
        (Engine.buffered (Engine.stats e))
        (Engine.maxBufferSize (Engine.stats e))),
   vc).
Proof.
  intros H. unfold Engine.processMessage.
  rewrite isCausallyReady_ready, H. done.
Qed.

Lemma processMessage_not_ready m vc s now e :
  ready (Message.vectorClock m) s vc = false →
  Engine.processMessage m vc s now e =
  (Engine.mkResult false (Message.id m) "buffered"
     (Some "waiting_for_causal_dependencies"),
   Engine.mk
     (JsMap.set (Message.id m) (Engine.mkEntry m now 0) (Engine.messageBuffer e))
     (Engine.deliveredMessages e)
     (Engine.mkStats (Engine.totalProcessed (Engine.stats e) + 1)
        (Engine.deliveredImmediately (Engine.stats e))
        (Engine.buffered (Engine.stats e) + 1)
        (Nat.max (Engine.maxBufferSize (Engine.stats e))
           (JsMap.size
              (JsMap.set (Message.id m) (Engine.mkEntry m now 0)
                 (Engine.messageBuffer e))))),
   vc).
Proof.
  intros H. unfold Engine.processMessage.
  rewrite isCausallyReady_ready, H. done.
Qed.

Lemma JsMap_get_set {V} k (v : V) (b : JsMap.t V) :
  JsMap.get k (JsMap.set k v b) = Some v.
Proof.
  unfold JsMap.get. induction b as [|[k' v'] rest IH]; simpl.
  - by rewrite bool_decide_eq_true_2.
  - case_decide as Hk; simpl.
    + by rewrite bool_decide_eq_true_2.
    + by rewrite bool_decide_eq_false_2.
Qed.

Lemma JsMap_set_keys_present {V} k (v : V) (b : JsMap.t V) :
  k ∈ b.*1 → (JsMap.set k v b).*1 = b.*1.
Proof.
  induction b as [|[k' v'] rest IH]; csimpl; intros Hin.
  - by apply elem_of_nil in Hin.
  - case_decide as Hk; csimpl; [by subst|].
    apply elem_of_cons in Hin as [->|Hin]; [done|]. by rewrite IH.
Qed.

Lemma JsMap_set_keys_absent {V} k (v : V) (b : JsMap.t V) :
  k ∉ b.*1 → (JsMap.set k v b).*1 = b.*1 ++ [k].
Proof.
  induction b as [|[k' v'] rest IH]; csimpl; intros Hin; [done|].
  apply not_elem_of_cons in Hin as [Hne Hin].
  case_decide as Hk; csimpl; [congruence|]. by rewrite IH.
Qed.

Lemma JsMap_get_in {V} k (b : JsMap.t V) :
  k ∈ b.*1 → is_Some (JsMap.get k b).
Proof.
  unfold JsMap.get. induction b as [|[k' v'] rest IH]; csimpl; intros Hin.
  - by apply elem_of_nil in Hin.
  - case_bool_decide as Hk; simpl; [by eexists|].
    simpl in Hk. apply elem_of_cons in Hin as [->|Hin]; [done|]. by apply IH.
Qed.

Lemma filter_keeps_all {A} (P : A → Prop) `{∀ x, Decision (P x)} (l : list A) :
  Forall P l → filter P l = l.
Proof.
  induction 1 as [|x l Hx Hl IH]; [done|].
  by rewrite filter_cons_True, IH.
Qed.

Lemma JsMap_delete_keys {V} k (b : JsMap.t V) :
  (JsMap.delete k b).*1 = filter (λ k', k' ≠ k) b.*1.
Proof.
  unfold JsMap.delete. induction b as [|[k' v'] rest IH]; [done|].
  csimpl. rewrite !filter_cons. simpl. case_decide; csimpl; by rewrite IH.
Qed.

(** C4. [processMessage] has no case for a message id it has seen: every
    call counts the message in [totalProcessed], answers
    [deliver_immediately] when the message is causally ready at the clock
    and otherwise stores the entry under the id afresh (its [attempts] back
    at 0) and answers [buffered] with reason
    [waiting_for_causal_dependencies]; it never answers [duplicate], and
    offering the message again at the same clock gives the outcome of the
    first offer. *)
Theorem processMessage_treats_every_offer_alike m vc s now now' e :
  let '(r, e', vc') := Engine.processMessage m vc s now e in
  let '(r2, e'', _) := Engine.processMessage m vc' s now' e' in
  vc' = vc ∧
  Engine.totalProcessed (Engine.stats e') =
    Engine.totalProcessed (Engine.stats e) + 1 ∧
  Engine.totalProcessed (Engine.stats e'') =
    Engine.totalProcessed (Engine.stats e) + 2 ∧
  Engine.isCausallyReady r = ready (Message.vectorClock m) s vc ∧
  Engine.messageId r = Message.id m ∧
  (if Engine.isCausallyReady r then
     Engine.action r = "deliver_immediately" ∧ Engine.reason r = None ∧
     Engine.messageBuffer e' = Engine.messageBuffer e
   else
     Engine.action r = "buffered" ∧
     Engine.reason r = Some "waiting_for_causal_dependencies" ∧
     JsMap.get (Message.id m) (Engine.messageBuffer e') =
       Some (Engine.mkEntry m now 0) ∧
     JsMap.get (Message.id m) (Engine.messageBuffer e'') =
       Some (Engine.mkEntry m now' 0)) ∧
  Engine.reason r ≠ Some "duplicate" ∧
  r2 = r.
Proof.
  destruct (ready (Message.vectorClock m) s vc) eqn:Hr.
  - rewrite (processMessage_ready _ _ _ _ _ Hr).
    rewrite (processMessage_ready _ _ _ _ _ Hr). simpl.
    repeat split; try done; lia.
  - rewrite (processMessage_not_ready _ _ _ _ _ Hr).
    rewrite (processMessage_not_ready _ _ _ _ _ Hr). simpl.
    repeat split; try done; try lia; apply JsMap_get_set.
Qed.

(** The engine after [m2] was offered once at the clock [{bob: 0, alice: 0}]. *)
Lemma reoffer_of_buffered_message_is_processed_again :
  let vc := VCM.mk "bob" (<["alice" := 0]> (<["bob" := 0]> ∅)) in
  let e1 := (Engine.processMessage m2 vc "alice" 10 Engine.new).1.2 in
  let '(r2, e2, _) := Engine.processMessage m2 vc "alice" 20 e1 in
  JsMap.has "m2" (Engine.messageBuffer e1) = true ∧
  ¬ (e2 = e1 ∧ Engine.isCausallyReady r2 = false ∧
     Engine.reason r2 = Some "duplicate").
Proof.
  vm_compute. split; [done|]. intros (_ & _ & H). discriminate H.
Qed.

End Engine.

(** ** Draining the buffer *)

Section Drain.

Implicit Types (e : Engine.t) (vc : VCM.t) (app : App.t).

Lemma check_loop_eq (entries : JsMap.t Engine.BufferEntry) vc now :
  Engine.check_loop entries vc now =
  (map (ready_of now) (filter (λ kv, entry_ready vc kv = true) entries),
   map (retried vc) entries, vc).
Proof.
  induction entries as [|[mid entry] rest IH]; [done|].
  rewrite filter_cons, map_cons. cbn [Engine.check_loop].
  unfold VCM.canDeliverBufferedMessage.
  rewrite isCausallyReady_ready, IH.
  assert (retried vc (mid, entry) =
          if ready (Message.vectorClock (Engine.message entry))
               (Message.userId (Engine.message entry)) vc
          then (mid, entry)
          else (mid, Engine.mkEntry (Engine.message entry)
                       (Engine.receivedAt entry) (Engine.attempts entry + 1)))
    as -> by done.
  destruct (ready _ _ vc) eqn:Hr.
  - rewrite decide_True by exact Hr. done.
  - rewrite decide_False; [done|]. unfold entry_ready. simpl. by rewrite Hr.
Qed.

Lemma checkBufferedMessages_eq vc now e :
  Engine.checkBufferedMessages vc now e =
  (map (ready_of now)
     (filter (λ kv, entry_ready vc kv = true) (Engine.messageBuffer e)),
   Engine.mk (map (retried vc) (Engine.messageBuffer e))
     (Engine.deliveredMessages e) (Engine.stats e),
   vc).
Proof. unfold Engine.checkBufferedMessages. by rewrite check_loop_eq. Qed.

Lemma retried_key vc kv : (retried vc kv).1 = kv.1.
Proof. unfold retried. by destruct (entry_ready vc kv). Qed.

Lemma retried_ready vc vc' kv : entry_ready vc' (retried vc kv) = entry_ready vc' kv.
Proof. unfold retried. by destruct (entry_ready vc kv). Qed.

(** C6. One pass returns the ready entries in the order in which the
    buffer, a [Map], iterates them: nothing is sorted by causality, by
    [receivedAt] or by id. The sequence of ids is a function of the buffer
    and of the clock; the time of the pass only enters [waitTime]. The
    pass keeps the order of the buffer. That order is the order in which
    the ids the buffer holds were put in: a message that is buffered under
    a new id goes last, one that is buffered under an id the buffer holds
    takes the place of that entry, and a delivery takes the id out, so that
    an id buffered again after its delivery goes last. *)
Theorem checkBufferedMessages_returns_buffer_order vc now now' e :
  let '(readyMessages, e', vc') := Engine.checkBufferedMessages vc now e in
  readyMessages =
    map (ready_of now)
      (filter (λ kv, entry_ready vc kv = true) (Engine.messageBuffer e)) ∧
  sublist (map Engine.r_messageId readyMessages) (Engine.messageBuffer e).*1 ∧
  map Engine.r_messageId readyMessages =
    map Engine.r_messageId (Engine.checkBufferedMessages vc now' e).1.1 ∧
  (Engine.messageBuffer e').*1 = (Engine.messageBuffer e).*1 ∧
  vc' = vc ∧
  (∀ m s vc0 t,
     ready (Message.vectorClock m) s vc0 = false →
     (Engine.messageBuffer (Engine.processMessage m vc0 s t e).1.2).*1 =
       if decide (Message.id m ∈ (Engine.messageBuffer e).*1)
       then (Engine.messageBuffer e).*1
       else (Engine.messageBuffer e).*1 ++ [Message.id m]) ∧
  (∀ mid t,
     (Engine.messageBuffer (Engine.deliverMessage mid t e).2).*1 =
       filter (λ k, k ≠ mid) (Engine.messageBuffer e).*1).
Proof.
  rewrite !checkBufferedMessages_eq. simpl.
  rewrite <- !list_fmap_compose.
  split; [done|]. split; [|split; [done|split; [|split; [done|split]]]].
  - change (Engine.r_messageId ∘ ready_of now) with
      (fst : string * Engine.BufferEntry → string).
    apply fmap_sublist, sublist_filter.
  - apply list_fmap_ext. intros i kv _. apply retried_key.
  - intros m s vc0 t Hr. rewrite processMessage_not_ready by done. simpl.
    case_decide.
    + by apply JsMap_set_keys_present.
    + by apply JsMap_set_keys_absent.
  - intros mid t. unfold Engine.deliverMessage.
    destruct (JsMap.get mid (Engine.messageBuffer e)) as [entry|] eqn:Hget; simpl.
    + apply JsMap_delete_keys.
    + symmetry. apply filter_keeps_all. apply Forall_forall. intros k Hk ->.
      apply JsMap_get_in in Hk as [? ?]. congruence.
Qed.

(** The buffer holds "b" before "a"; both were received at time 5, their
    clocks are concurrent, and both are ready once the message of "dave"
    is seen: the pass returns "b" first, the order of the specification
    puts "a" first. *)
Lemma ready_pair_is_not_in_specified_order :
  let readyMessages := (Engine.checkBufferedMessages dave_seen 9 two_waiting).1.1 in
  map Engine.r_messageId readyMessages = ["b"; "a"] ∧
  ¬ spec_ordered readyMessages.
Proof.
  split; [by vm_compute|].
  intros H.
  refine (H 0 1 (ready_of 9 ("b", Engine.mkEntry mb 5 0))
              (ready_of 9 ("a", Engine.mkEntry ma 5 0)) _ _ _ _);
    [lia | by vm_compute | by vm_compute |].
  right. split; [|split].
  - intros [Hle _]. specialize (Hle "bob"). vm_compute in Hle. lia.
  - intros [Hle _]. specialize (Hle "alice"). vm_compute in Hle. lia.
  - right. by vm_compute.
Qed.

Lemma JsMap_delete_length_lt {V} k (b : JsMap.t V) :
  k ∈ b.*1 → length (JsMap.delete k b) < length b.
Proof.
  unfold JsMap.delete. induction b as [|[k' v'] rest IH]; csimpl; intros Hin.
  - by apply elem_of_nil in Hin.
  - rewrite filter_cons. case_decide as Hk; simpl in *.
    + apply elem_of_cons in Hin as [->|Hin]; [done|].
      specialize (IH Hin). lia.
    + pose proof (length_filter (λ kv : string * V, kv.1 ≠ k) rest). lia.
Qed.

End Drain.

(** ** The hub *)

Section Hub.

Import Server.

Implicit Types (srv : Server.t) (c client : Client) (cs : list Client).

Lemma client_of_store client srv :
  (∃ c, c ∈ clients srv ∧ ws c = ws client) →
  client_of (ws client) (store_client client srv) = Some client.
Proof.
  unfold client_of, store_client. simpl. intros (c & Hin & Hws).
  induction (clients srv) as [|c0 cs IH]; [by apply elem_of_nil in Hin|].
  simpl. case_decide as Hc0; simpl.
  - by rewrite bool_decide_eq_true_2.
  - rewrite bool_decide_eq_false_2 by done.
    apply elem_of_cons in Hin as [->|Hin]; [done|]. by apply IH.
Qed.

Lemma client_of_elem w srv c : client_of w srv = Some c → c ∈ clients srv ∧ ws c = w.
Proof.
  unfold client_of. intros H. split.
  - apply list_elem_of_In. by apply find_some in H as [? _].
  - apply find_some in H as [_ H]. by apply bool_decide_eq_true in H.
Qed.

(** The loop over the clients, entry by entry. *)
Lemma copy_times_other self cs (clk : gmap string nat) k :
  (∀ c, c ∈ cs → roomId c = roomId self → id c ≠ id self → id c ≠ k) →
  copy_times self cs clk !! k = clk !! k.
Proof.
  unfold copy_times. revert clk.
  induction cs as [|c0 cs IH]; intros clk H; [done|]. simpl.
  rewrite IH by (intros c Hc; apply H; by right).
  destruct (bool_decide (roomId c0 = roomId self)) eqn:Hroom; simpl; [|done].
  destruct (bool_decide (id c0 = id self)) eqn:Hid; simpl; [done|].
  apply bool_decide_eq_true in Hroom. apply bool_decide_eq_false in Hid.
  rewrite lookup_insert_ne; [done|]. apply H; [by left|done..].
Qed.

Lemma copy_times_copied self cs (clk : gmap string nat) c :
  NoDup (id <$> cs) → c ∈ cs → roomId c = roomId self → id c ≠ id self →
  copy_times self cs clk !! id c = Some (read (vectorClock c) (id c)).
Proof.
  unfold copy_times. revert clk.
  induction cs as [|c0 cs IH]; intros clk Hnd Hin Hroom Hid.
  - by apply elem_of_nil in Hin.
  - csimpl in Hnd. apply NoDup_cons in Hnd as [Hc0 Hnd].
    apply elem_of_cons in Hin as [->|Hin].
    + simpl. rewrite !bool_decide_eq_true_2, bool_decide_eq_false_2 by done.
      simpl. fold (copy_times self cs (<[id c0 := read (vectorClock c0) (id c0)]> clk)).
      rewrite copy_times_other; [by rewrite lookup_insert_eq|].
      intros c Hc _ _ Heq. apply Hc0. rewrite <- Heq.
      apply list_elem_of_fmap. by exists c.
    + simpl. by apply IH.
Qed.

Lemma copy_times_dom self cs (clk : gmap string nat) k :
  is_Some (copy_times self cs clk !! k) →
  is_Some (clk !! k) ∨
  ∃ c, c ∈ cs ∧ id c = k ∧ roomId c = roomId self ∧ id c ≠ id self.
Proof.
  unfold copy_times. revert clk.
  induction cs as [|c0 cs IH]; intros clk Hk; [by left|].
  simpl in Hk. apply IH in Hk as [Hk|(c & Hc & Hrest)].
  - destruct (bool_decide (roomId c0 = roomId self)) eqn:Hroom; simpl in Hk;
      [|by left].
    destruct (bool_decide (id c0 = id self)) eqn:Hid; simpl in Hk; [by left|].
    apply bool_decide_eq_true in Hroom. apply bool_decide_eq_false in Hid.
    destruct (decide (id c0 = k)) as [Heq|Hne].
    + right. exists c0. split; [by left|done].
    + left. by rewrite lookup_insert_ne in Hk.
  - right. exists c. split; [by right|done].
Qed.

Lemma same_socket_same_client cs c c' :
  NoDup (ws <$> cs) → c ∈ cs → c' ∈ cs → ws c = ws c' → c = c'.
Proof.
  induction cs as [|c0 cs IH]; intros Hnd Hc Hc' Hws.
  - by apply elem_of_nil in Hc.
  - csimpl in Hnd. apply NoDup_cons in Hnd as [Hc0 Hnd].
    apply elem_of_cons in Hc as [->|Hc]; apply elem_of_cons in Hc' as [->|Hc'].
    + done.
    + exfalso. apply Hc0. rewrite Hws. apply list_elem_of_fmap. by exists c'.
    + exfalso. apply Hc0. rewrite <- Hws. apply list_elem_of_fmap. by exists c.
    + by apply IH.
Qed.

Lemma store_client_ids client client1 srv :
  NoDup (ws <$> clients srv) → client ∈ clients srv →
  ws client1 = ws client → id client1 = id client →
  id <$> clients (store_client client1 srv) = id <$> clients srv.
Proof.
  intros Hnd Hin Hws Hid. unfold store_client. simpl.
  rewrite <- list_fmap_compose. apply list_fmap_ext. intros i c Hc. simpl.
  case_decide as Hw; [|done]. rewrite Hid. f_equal.
  symmetry. eapply same_socket_same_client; [done| |done|congruence].
  apply list_elem_of_lookup. by exists i.
Qed.

Lemma store_client_elem client1 srv c :
  c ∈ clients (store_client client1 srv) →
  c = client1 ∨ (c ∈ clients srv ∧ ws c ≠ ws client1).
Proof.
  unfold store_client. simpl. intros (c0 & -> & Hc0)%list_elem_of_fmap.
  case_decide; [by left|by right].
Qed.

Lemma store_client_keeps client1 srv c :
  c ∈ clients srv → ws c ≠ ws client1 → c ∈ clients (store_client client1 srv).
Proof.
  intros Hin Hws. unfold store_client. simpl. apply list_elem_of_fmap.
  exists c. split; [|done]. by rewrite decide_False.
Qed.

(** C7. When a session joins a room that exists, its server-side clock
    afterwards holds 0 at its own id, holds [c.clock[c.id]] (0 when that
    entry is missing) at the id of every other session [c] of the hub whose
    [roomId] is the room, whether [c] has joined or is only connected, and
    holds nothing else. Sockets and ids are those of distinct sessions. *)
Theorem handleJoin_initialises_clock client data now srv room :
  let rid := or_string (j_roomId data) "main" in
  rooms srv !! rid = Some room →
  client ∈ clients srv →
  NoDup (ws <$> clients srv) →
  NoDup (id <$> clients srv) →
  ∃ client',
    client_of (ws client) (handleJoin client data now srv).1 = Some client' ∧
    id client' = id client ∧ roomId client' = rid ∧
    vectorClock client' !! id client = Some 0 ∧
    (∀ c, c ∈ clients srv → id c ≠ id client → roomId c = rid →
       vectorClock client' !! id c = Some (read (vectorClock c) (id c))) ∧
    (∀ k, is_Some (vectorClock client' !! k) →
       k = id client ∨
       ∃ c, c ∈ clients srv ∧ id c = k ∧ id c ≠ id client ∧ roomId c = rid).
Proof.
  intros rid Hroom Hin Hws Hids. unfold handleJoin. fold rid.
  set (client1 := mkClient (id client) (ws client) (readyState client)
                    (j_username data) rid (joinedAt client) (vectorClock client)).
  assert (rooms (store_client client1 srv) !! roomId client1 = Some room) as ->
    by done.
  cbn zeta. cbn [fst].
  set (srv2 := mk (clients (store_client client1 srv)) _ _ _).
  set (client2 := mkClient _ _ _ _ _ _ (<[id client1 := 0]> _)).
  assert (client1 ∈ clients srv2) as Hin1.
  { unfold srv2, store_client. simpl. apply list_elem_of_fmap. exists client.
    split; [|done]. by rewrite decide_True. }
  assert (NoDup (id <$> clients srv2)) as Hids2.
  { unfold srv2. cbn [clients].
    by rewrite (store_client_ids client client1 srv). }
  exists client2. split; [|split; [done|split; [done|split; [|split]]]].
  - apply (client_of_store client2 srv2). by exists client1.
  - unfold client2. cbn [vectorClock]. by rewrite lookup_insert_eq.
  - intros c Hc Hid Hrid. unfold client2. cbn [vectorClock].
    rewrite lookup_insert_ne by done.
    apply copy_times_copied; [done| |done..].
    unfold srv2. cbn [clients]. apply store_client_keeps; [done|].
    intros Heq. apply Hid. f_equal.
    by apply (same_socket_same_client (clients srv)).
  - intros k Hk. unfold client2 in Hk. cbn [vectorClock] in Hk.
    destruct (decide (k = id client)) as [->|Hne]; [by left|right].
    rewrite lookup_insert_ne in Hk by done.
    apply copy_times_dom in Hk as [Hk|(c & Hc & Hidk & Hroomc & Hidc)].
    + rewrite lookup_empty in Hk. by destruct Hk.
    + unfold srv2 in Hc. cbn [clients] in Hc.
      apply store_client_elem in Hc as [->|[Hc _]]; [done|].
      by exists c.
Qed.

(** The theorem at the hub where "c" joins while "x" is only connected. *)
Lemma handleJoin_initialises_clock_witness :
  ∃ client',
    client_of 2 (handleJoin carol_connected (mkJoin (Some "Carol") None) 1
                   hub_with_anonymous).1 = Some client' ∧
    vectorClock client' !! "c" = Some 0.
Proof.
  assert (NoDup (ws <$> clients hub_with_anonymous)) as Hws.
  { apply (bool_decide_unpack _). by vm_compute. }
  assert (NoDup (id <$> clients hub_with_anonymous)) as Hids.
  { apply (bool_decide_unpack _). by vm_compute. }
  assert (carol_connected ∈ clients hub_with_anonymous) as Hin.
  { right. left. }
  destruct (handleJoin_initialises_clock carol_connected
              (mkJoin (Some "Carol") None) 1 hub_with_anonymous
              (mkRoom "main" "Main Chat Room" ∅ 0) eq_refl Hin Hws Hids)
    as (client' & Hc & _ & _ & Hself & _).
  exists client'. split; [exact Hc|exact Hself].
Defined.

(** "x" is connected and has not joined: it is no member of the room, and
    the clock of "c" holds an entry for it after "c" joins. *)
Lemma joiner_clock_holds_a_non_member :
  let srv := (handleJoin carol_connected (mkJoin (Some "Carol") None) 1
                hub_with_anonymous).1 in
  ∃ client' room,
    client_of 2 srv = Some client' ∧ rooms srv !! "main" = Some room ∧
    ("c" ∈ users room) ∧ ("x" ∉ users room) ∧
    vectorClock client' !! "x" = Some 0.
Proof.
  eexists _, _. split; [by vm_compute|]. split; [by vm_compute|].
  split; [|split].
  - apply (bool_decide_unpack _). by vm_compute.
  - intros H. apply (bool_decide_pack _) in H. by vm_compute in H.
  - by vm_compute.
Qed.

Lemma timer_delay_eq (md : option Metadata) :
  timer_delay md =
  match md ≫= delayMs with
  | Some (S n) => S n
  | _ => 1000
  end.
Proof. unfold timer_delay, or_nat. by destruct (md ≫= delayMs) as [[|n]|]. Qed.

(** C8. A chat frame whose metadata has [simulateDelay] set, sent by a
    session of the hub. When the room of the session exists, the handler
    increments the sender's entry, appends the message, stamped with the
    incremented clock, to the history of the room, sets one timer for the
    broadcast and sends the acknowledgement to the sender; it sends nothing
    else, and the broadcast is made when the timer fires. The delay of the
    timer is [delayMs] when that is a positive number, and 1000 when it is
    0 or missing. When the session names a room the hub does not have, the
    frame is dropped: nothing is changed, set or sent. *)
Theorem handleChat_defers_the_broadcast client data uuid now srv :
  client_of (ws client) srv = Some client →
  wants_delay (c_metadata data) = true →
  let '(srv', actions) := handleChat client data uuid now srv in
  let history := default [] (messageHistory srv !! roomId client) in
  match rooms srv !! roomId client with
  | None => srv' = srv ∧ actions = []
  | Some _ =>
      ∃ client' message,
        client_of (ws client) srv' = Some client' ∧
        read (vectorClock client') (id client) =
          read (vectorClock client) (id client) + 1 ∧
        m_id message = uuid ∧
        m_vectorClock message = map_to_list (vectorClock client') ∧
        messageHistory srv' !! roomId client = Some (history ++ [message]) ∧
        actions =
          [SetTimeout (timer_delay (c_metadata data)) (roomId client)
             (FChat message) (Some (ws client));
           Send (ws client) (FMessageDelivered uuid now)] ∧
        timer_delay (c_metadata data) =
          match c_metadata data ≫= delayMs with
          | Some (S n) => S n
          | _ => 1000
          end ∧
        ∀ later : Server.t,
          fire (SetTimeout (timer_delay (c_metadata data)) (roomId client)
                  (FChat message) (Some (ws client))) later =
          broadcastToRoom (roomId client) (FChat message) (Some (ws client)) later
  end.
Proof.
  intros Hclient Hdelay. unfold handleChat.
  destruct (rooms srv !! roomId client) as [room|] eqn:Hroom; [|done].
  rewrite Hdelay. cbn zeta.
  set (client1 := mkClient _ _ _ _ _ _ (<[id client := _]> _)).
  exists client1.
  match goal with |- context [FChat ?m] => exists m end.
  split; [|split; [|split; [|split; [|split]]]].
  - unfold updateUserStats. apply (client_of_store client1 srv).
    apply client_of_elem in Hclient as [Hin _]. by exists client.
  - unfold client1. cbn [vectorClock]. by rewrite read_insert, decide_True.
  - done.
  - done.
  - unfold updateUserStats. cbn [messageHistory]. by rewrite lookup_insert_eq.
  - split; [done|]. split; [apply timer_delay_eq|done].
Qed.

(** The theorem at a frame of "a" that asks for a delay of 250 ms. *)
Lemma handleChat_defers_the_broadcast_witness :
  ∃ alice,
    client_of 1 hub_with_alice = Some alice ∧
    ∃ f, (handleChat alice
            (mkChatRequest "hi" (Some (mkMetadata true (Some 250)))) "u" 2
            hub_with_alice).2 =
         [SetTimeout 250 "main" f (Some 1); Send 1 (FMessageDelivered "u" 2)].
Proof.
  eexists. split; [by vm_compute|].
  match goal with
  | |- ∃ f, (handleChat ?c ?d ?u ?n ?s).2 = _ =>
      pose proof (handleChat_defers_the_broadcast c d u n s) as H
  end.
  destruct (handleChat _ _ _ _ _) as [srv' actions].
  assert (rooms hub_with_alice !! "main" =
          Some (mkRoom "main" "Main Chat Room" {["a"]} 0)) as Hroom
    by (by vm_compute).
  cbn [roomId] in H. rewrite Hroom in H.
  destruct H as (client' & message & _ & _ & _ & _ & _ & Hact & _);
    [by vm_compute..|].
  exists (FChat message). exact Hact.
Defined.

(** A frame with [simulateDelay] set and [delayMs] 0: the broadcast is
    deferred by 1000 ms. *)
Lemma zero_delay_is_deferred_by_a_second :
  ∃ alice f,
    client_of 1 hub_with_alice = Some alice ∧
    (handleChat alice (mkChatRequest "hi" (Some (mkMetadata true (Some 0)))) "u" 2
       hub_with_alice).2 =
    [SetTimeout 1000 "main" f (Some 1); Send 1 (FMessageDelivered "u" 2)] ∧
    1000 ≠ 0.
Proof. eexists _, _. split; [by vm_compute|]. split; [by vm_compute|done]. Qed.

Lemma slice_last_suffix {A} n (l : list A) : slice_last n l `suffix_of` l.
Proof. unfold slice_last. apply suffix_drop. Qed.

Lemma slice_last_length {A} n (l : list A) :
  length (slice_last n l) = Nat.min n (length l).
Proof. unfold slice_last. rewrite length_drop. lia. Qed.

(** C9. The history of a room is not trimmed: a chat frame in a room that
    exists appends its message and drops none, so the history holds every
    message sent in the room. A [request_history] frame is answered with
    one [history] frame, whose messages are the last 50 of the history, all
    of them when there are fewer, in their order, and whose total is the
    length of the whole history. *)
Theorem history_grows_and_is_served_by_last_50 client data uuid now srv room :
  rooms srv !! roomId client = Some room →
  let history := default [] (messageHistory srv !! roomId client) in
  let srv' := (handleChat client data uuid now srv).1 in
  (∃ message,
     m_id message = uuid ∧
     messageHistory srv' !! roomId client = Some (history ++ [message])) ∧
  ∃ messages,
    sendHistory client srv = [Send (ws client) (FHistory messages (length history))] ∧
    messages `suffix_of` history ∧
    length messages = Nat.min 50 (length history).
Proof.
  intros Hroom history srv'. split.
  - subst srv'. unfold handleChat. rewrite Hroom. cbn zeta. eexists.
    split; [|unfold updateUserStats; cbn [fst messageHistory];
             by rewrite lookup_insert_eq].
    done.
  - exists (slice_last 50 history). split; [done|].
    split; [apply slice_last_suffix|apply slice_last_length].
Qed.

(** The theorem at the hub where "a" has sent 51 messages. *)
Lemma history_grows_and_is_served_by_last_50_witness :
  ∃ alice messages,
    client_of 1 (chat_n 51 hub_with_alice) = Some alice ∧
    sendHistory alice (chat_n 51 hub_with_alice) =
      [Send 1 (FHistory messages 51)] ∧
    length messages = 50.
Proof.
  assert (∃ alice, client_of 1 (chat_n 51 hub_with_alice) = Some alice
                   ∧ roomId alice = "main" ∧ ws alice = 1)
    as (alice & Halice & Hrid & Hws).
  { eexists. split; [by vm_compute|]. split; by vm_compute. }
  assert (∃ room, rooms (chat_n 51 hub_with_alice) !! roomId alice = Some room)
    as [room Hroom].
  { rewrite Hrid. eexists. by vm_compute. }
  destruct (history_grows_and_is_served_by_last_50 alice
              (mkChatRequest "hi" None) "u" 2 (chat_n 51 hub_with_alice) room Hroom)
    as (_ & messages & Hsend & _ & Hlen).
  assert (length (default [] (messageHistory (chat_n 51 hub_with_alice)
                                !! roomId alice)) = 51) as H51.
  { rewrite Hrid. by vm_compute. }
  rewrite H51 in Hsend, Hlen. rewrite Hws in Hsend.
  exists alice, messages. split; [exact Halice|]. split; [exact Hsend|exact Hlen].
Defined.

(** After 51 chat frames the history of the room holds 51 messages. *)
Lemma history_exceeds_50 :
  length (default [] (messageHistory (chat_n 51 hub_with_alice) !! "main")) = 51 ∧
  ¬ (51 ≤ 50).
Proof. split; [by vm_compute|lia]. Qed.

End Hub.

(** ** More on the vector clock *)

Section ClockOperations.

Implicit Types (vc : VCM.t) (arr : ClockArray) (s p u : string).

Lemma Map_of_entries_map_to_list (m : gmap string nat) :
  Map_of_entries (map_to_list m) = m.
Proof.
  apply map_eq. intros k. unfold Map_of_entries.
  destruct (m !! k) as [v|] eqn:Hk.
  - apply Map_of_entries_foldl_in; [apply NoDup_fst_map_to_list|].
    by apply elem_of_map_to_list.
  - rewrite Map_of_entries_foldl_notin; [done|].
    intros ([k' v] & -> & Hin)%list_elem_of_fmap.
    apply elem_of_map_to_list in Hin. simpl in Hk. congruence.
Qed.

(** X1. [isCausallyReady] answers true exactly when the sender's entry of the
    message is one more than the local one and, for every other id that
    has an entry in the local clock, the message's entry is at most the
    local one; an id without a local entry is not looked at. It accepts
    every message the predicate of the specification accepts, and the two
    agree when every id of the message clock has a local entry. *)
Theorem isCausallyReady_checks_the_local_entries arr s vc :
  (ready arr s vc = true ↔
     read (Map_of_entries arr) s = read (VCM.clock vc) s + 1 ∧
     ∀ p, p ∈ dom (VCM.clock vc) → p ≠ s →
          read (Map_of_entries arr) p ≤ read (VCM.clock vc) p) ∧
  (spec_ready arr s (VCM.clock vc) → ready arr s vc = true) ∧
  (dom (Map_of_entries arr) ⊆ dom (VCM.clock vc) ∪ {[s]} →
   ready arr s vc = true → spec_ready arr s (VCM.clock vc)).
Proof.
  split; [|split; [apply spec_ready_ready|apply ready_spec_ready_known]].
  rewrite ready_true_iff. split; intros [Hs Ho]; (split; [done|]).
  - intros p [l Hp]%elem_of_dom Hne. unfold read at 2. rewrite Hp. simpl.
    by eapply Ho.
  - intros p l Hp Hne. specialize (Ho p). unfold read at 2 in Ho.
    rewrite Hp in Ho. apply Ho; [|done]. apply elem_of_dom. by eexists.
Qed.

(** X2. The array [getClockArray] returns has one pair for each id, and read
    back with [new Map] it is the clock; the clock object is not changed. *)
Theorem getClockArray_round_trip vc :
  Map_of_entries (VCM.getClockArray vc).1 = VCM.clock vc ∧
  NoDup (VCM.getClockArray vc).1.*1 ∧
  (VCM.getClockArray vc).2 = vc.
Proof.
  unfold VCM.getClockArray, VCM.clock_entries. simpl.
  split; [apply Map_of_entries_map_to_list|].
  split; [apply NoDup_fst_map_to_list|done].
Qed.

Lemma increment_eq vc :
  VCM.increment vc =
  (map_to_list (<[VCM.userId vc := read (VCM.clock vc) (VCM.userId vc) + 1]>
                  (VCM.clock vc)),
   VCM.mk (VCM.userId vc)
     (<[VCM.userId vc := read (VCM.clock vc) (VCM.userId vc) + 1]> (VCM.clock vc))).
Proof. done. Qed.

(** X3. [increment], [n] times: the own entry goes up by [n], every other
    entry and the owner stay, and the array the last call returns is the
    clock it leaves. *)
Theorem increment_counts_own_ticks (n : nat) vc :
  let vc' := Nat.iter n (λ v, (VCM.increment v).2) vc in
  VCM.userId vc' = VCM.userId vc ∧
  read (VCM.clock vc') (VCM.userId vc) = read (VCM.clock vc) (VCM.userId vc) + n ∧
  (∀ p, p ≠ VCM.userId vc → VCM.clock vc' !! p = VCM.clock vc !! p) ∧
  Map_of_entries (VCM.increment vc').1 = VCM.clock (VCM.increment vc').2.
Proof.
  intros vc'. subst vc'.
  set (iter := λ k, Nat.iter k (λ v, (VCM.increment v).2) vc).
  assert (∀ k, VCM.userId (iter k) = VCM.userId vc) as Hid.
  { induction k as [|k IH]; [done|]. unfold iter. rewrite Nat.iter_succ.
    rewrite increment_eq. exact IH. }
  change (Nat.iter n _ vc) with (iter n).
  split; [apply Hid|]. split; [|split].
  - induction n as [|n IH]; [simpl; lia|].
    unfold iter. rewrite Nat.iter_succ. fold (iter n). rewrite increment_eq.
    cbn [snd VCM.clock]. rewrite Hid, read_insert, decide_True by done. lia.
  - intros p Hp. induction n as [|n IH]; [done|].
    unfold iter. rewrite Nat.iter_succ. fold (iter n). rewrite increment_eq.
    cbn [snd VCM.clock]. rewrite Hid, lookup_insert_ne by done. exact IH.
  - rewrite increment_eq. cbn [fst snd VCM.clock].
    apply Map_of_entries_map_to_list.
Qed.

(** The clock of the constructor has the own entry, at 0, and no other. *)
Lemma new_lookup u p :
  VCM.clock (VCM.new u) !! p = if decide (p = u) then Some 0 else None.
Proof.
  unfold VCM.new. simpl. rewrite lookup_insert. case_decide; case_decide; try done.
  all: congruence.
Qed.

(** X4. The message a sender stamps with [increment] is ready at every
    recipient whose clock holds what the sender's clock held before. *)
Theorem increment_snapshot_is_ready vc (recipient : VCM.t) :
  VCM.clock recipient = VCM.clock vc →
  ready (VCM.increment vc).1 (VCM.userId vc) recipient = true.
Proof.
  intros Heq. apply ready_true_iff. rewrite increment_eq. simpl.
  rewrite Map_of_entries_map_to_list, Heq. split.
  - by rewrite read_insert, decide_True.
  - intros p l Hp Hne. rewrite read_insert, decide_False by done.
    unfold read. by rewrite Hp.
Qed.

Lemma increment_snapshot_is_ready_witness :
  ready (VCM.increment carol_clock).1 "carol" (VCM.mk "alice" (VCM.clock carol_clock))
  = true.
Proof. apply (increment_snapshot_is_ready carol_clock). done. Defined.

Lemma addUser_lookup u vc p :
  VCM.clock (VCM.addUser u vc).2 !! p =
  match VCM.clock vc !! p with
  | Some v => Some v
  | None => if decide (p = u) then Some 0 else None
  end.
Proof.
  unfold VCM.addUser, mbind, VCM.VC_bind, VCM.clock_has. simpl.
  case_bool_decide as Hu; simpl.
  - destruct (VCM.clock vc !! p) eqn:Hp; [done|].
    case_decide; [|done]. subst. destruct Hu. congruence.
  - rewrite lookup_insert. case_decide as Hup.
    + subst. destruct (VCM.clock vc !! p) eqn:Hp.
      * exfalso. apply Hu. by eexists.
      * by rewrite decide_True.
    + destruct (VCM.clock vc !! p); [done|]. by rewrite decide_False.
Qed.

Lemma addUser_userId u vc : VCM.userId (VCM.addUser u vc).2 = VCM.userId vc.
Proof.
  unfold VCM.addUser, mbind, VCM.VC_bind, VCM.clock_has. simpl.
  by case_bool_decide.
Qed.

Lemma syncWithUsers_cons u ids vc :
  VCM.syncWithUsers (u :: ids) vc = VCM.syncWithUsers ids (VCM.addUser u vc).2.
Proof.
  simpl. unfold VCM.addUser, mbind, VCM.VC_bind, VCM.clock_has. simpl.
  by case_bool_decide.
Qed.

Lemma syncWithUsers_lookup (ids : list string) vc p :
  VCM.clock (VCM.syncWithUsers ids vc).2 !! p =
  match VCM.clock vc !! p with
  | Some v => Some v
  | None => if decide (p ∈ ids) then Some 0 else None
  end.
Proof.
  revert vc. induction ids as [|u ids IH]; intros vc.
  - cbn [VCM.syncWithUsers]. change ((mret tt : VCM.VC unit) vc).2 with vc.
    destruct (VCM.clock vc !! p); [done|].
    rewrite decide_False; [done|]. apply not_elem_of_nil.
  - rewrite syncWithUsers_cons, IH, addUser_lookup.
    destruct (VCM.clock vc !! p); [done|].
    destruct (decide (p = u)) as [->|Hpu].
    + rewrite (decide_True (P := u ∈ u :: ids)); [done|]. by left.
    + destruct (decide (p ∈ ids)) as [Hin|Hnin].
      * rewrite (decide_True (P := p ∈ u :: ids)); [done|]. by right.
      * rewrite (decide_False (P := p ∈ u :: ids)); [done|].
        by intros [?|?]%elem_of_cons.
Qed.

Lemma syncWithUsers_userId (ids : list string) vc :
  VCM.userId (VCM.syncWithUsers ids vc).2 = VCM.userId vc.
Proof.
  revert vc. induction ids as [|u ids IH]; intros vc; [done|].
  by rewrite syncWithUsers_cons, IH, addUser_userId.
Qed.

(** X5. [syncWithUsers] (and [addUser], its case of one id) gives every id it
    is told an entry, at 0 when the id had none, and lowers or raises no
    count: every id reads as before. Neither the order of the ids nor a
    repeated id matters. *)
Theorem syncWithUsers_adds_without_counting (ids ids' : list string) vc :
  let vc' := (VCM.syncWithUsers ids vc).2 in
  (∀ p, read (VCM.clock vc') p = read (VCM.clock vc) p) ∧
  dom (VCM.clock vc') = dom (VCM.clock vc) ∪ list_to_set ids ∧
  (∀ p v, VCM.clock vc !! p = Some v → VCM.clock vc' !! p = Some v) ∧
  ((∀ p, p ∈ ids ↔ p ∈ ids') → (VCM.syncWithUsers ids' vc).2 = vc') ∧
  (∀ u, (VCM.addUser u vc).2 = (VCM.syncWithUsers [u] vc).2).
Proof.
  intros vc'. subst vc'. split; [|split; [|split; [|split]]].
  - intros p. unfold read. rewrite syncWithUsers_lookup.
    destruct (VCM.clock vc !! p); [done|]. by case_decide.
  - apply set_eq. intros p. rewrite elem_of_union, !elem_of_dom,
      elem_of_list_to_set, syncWithUsers_lookup.
    destruct (VCM.clock vc !! p) eqn:Hp.
    + split; [by left|by eexists].
    + case_decide as Hin.
      * split; [by right|by eexists].
      * split; [by intros [? ?]|]. intros [[? ?]|?]; done.
  - intros p v Hp. by rewrite syncWithUsers_lookup, Hp.
  - intros Hsame.
    assert (∀ a b : VCM.t, VCM.userId a = VCM.userId b →
              VCM.clock a = VCM.clock b → a = b) as Hext.
    { intros [] []. simpl. by intros -> ->. }
    apply Hext; [by rewrite !syncWithUsers_userId|].
    apply map_eq. intros p. rewrite !syncWithUsers_lookup.
    destruct (VCM.clock vc !! p); [done|].
    destruct (decide (p ∈ ids)) as [Hin|Hnin].
    + rewrite decide_True; [done|]. by apply Hsame.
    + rewrite decide_False; [done|]. by rewrite <- Hsame.
  - intros u. by rewrite syncWithUsers_cons.
Qed.

(** X6. Learning of a user can only take readiness away: after [addUser] the
    check answers as before when the user is the sender, is known, or has
    no tick in the message clock, and answers false otherwise. *)
Theorem addUser_readiness arr s u vc :
  ready arr s (VCM.addUser u vc).2 =
  ready arr s vc &&
  (bool_decide (u = s) || bool_decide (is_Some (VCM.clock vc !! u))
   || (read (Map_of_entries arr) u =? 0)).
Proof.
  apply eq_true_iff_eq. rewrite andb_true_iff, !orb_true_iff, !ready_true_iff,
    !bool_decide_eq_true, Nat.eqb_eq.
  assert (∀ p, read (VCM.clock (VCM.addUser u vc).2) p = read (VCM.clock vc) p)
    as Hread.
  { intros p. unfold read. rewrite addUser_lookup.
    destruct (VCM.clock vc !! p); [done|]. by case_decide. }
  rewrite Hread. split.
  - intros [Hs Ho]. split; [split; [done|]|].
    + intros p l Hp Hne. apply Ho; [|done]. by rewrite addUser_lookup, Hp.
    + destruct (decide (u = s)) as [|Hus]; [by left; left|].
      destruct (VCM.clock vc !! u) eqn:Hu; [left; right; by eexists|].
      right. assert (read (Map_of_entries arr) u ≤ 0); [|lia].
      apply Ho; [|done]. rewrite addUser_lookup, Hu. by rewrite decide_True.
  - intros [[Hs Ho] Hu]. split; [done|].
    intros p l Hp Hne. rewrite addUser_lookup in Hp.
    destruct (VCM.clock vc !! p) eqn:Hp'.
    + injection Hp as <-. by apply Ho.
    + case_decide as Hpu; [|done]. injection Hp as <-. subst p.
      destruct Hu as [[Hu|[? Hu]]|Hu]; [done|congruence|lia].
Qed.

End ClockOperations.

(** ** More on the engine *)

Section EngineOperations.

Implicit Types (e : Engine.t) (vc : VCM.t) (m : Message.t) (s mid : string).

Lemma JsMap_get_Some {V} k (v : V) (b : JsMap.t V) :
  JsMap.get k b = Some v → (k, v) ∈ b.
Proof.
  unfold JsMap.get. induction b as [|[k' v'] rest IH]; simpl; [done|].
  case_bool_decide as Hk; simpl in *.
  - intros [= <-]. subst. by left.
  - intros H. right. by apply IH.
Qed.

Lemma JsMap_get_None {V} k (b : JsMap.t V) :
  JsMap.get k b = None ↔ k ∉ b.*1.
Proof.
  split.
  - intros Hget Hin. apply JsMap_get_in in Hin as [v Hv]. congruence.
  - intros Hnin. destruct (JsMap.get k b) as [v|] eqn:Hget; [|done].
    exfalso. apply Hnin. apply JsMap_get_Some in Hget.
    apply list_elem_of_fmap. by exists (k, v).
Qed.

Lemma JsMap_get_NoDup {V} k (v : V) (b : JsMap.t V) :
  NoDup b.*1 → (k, v) ∈ b → JsMap.get k b = Some v.
Proof.
  unfold JsMap.get. induction b as [|[k' v'] rest IH]; csimpl; intros Hnd Hin.
  - by apply elem_of_nil in Hin.
  - apply NoDup_cons in Hnd as [Hk' Hnd].
    apply elem_of_cons in Hin as [[= <- <-]|Hin].
    + by rewrite bool_decide_eq_true_2.
    + rewrite bool_decide_eq_false_2; [by apply IH|].
      simpl. intros ->. apply Hk'. apply list_elem_of_fmap. by exists (k, v).
Qed.

Lemma JsMap_set_elem {V} k (v : V) (b : JsMap.t V) kv :
  kv ∈ JsMap.set k v b → kv = (k, v) ∨ kv ∈ b.
Proof.
  induction b as [|[k' v'] rest IH]; simpl.
  - intros ->%list_elem_of_singleton. by left.
  - case_decide.
    + intros [->|Hin]%elem_of_cons; [by left|]. right. by right.
    + intros [->|Hin]%elem_of_cons; [right; by left|].
      destruct (IH Hin) as [->|?]; [by left|]. right. by right.
Qed.

Lemma JsMap_set_length {V} k (v : V) (b : JsMap.t V) :
  length (JsMap.set k v b) = if decide (k ∈ b.*1) then length b else S (length b).
Proof.
  rewrite <- !(length_fmap fst). case_decide as Hin.
  - by rewrite JsMap_set_keys_present.
  - rewrite JsMap_set_keys_absent by done. rewrite length_app. simpl. lia.
Qed.

Lemma JsMap_set_NoDup {V} k (v : V) (b : JsMap.t V) :
  NoDup b.*1 → NoDup (JsMap.set k v b).*1.
Proof.
  intros Hnd. destruct (decide (k ∈ b.*1)) as [Hin|Hnin].
  - by rewrite JsMap_set_keys_present.
  - rewrite JsMap_set_keys_absent by done. apply NoDup_app. split; [done|].
    split; [|apply NoDup_singleton].
    intros x Hx ->%list_elem_of_singleton. done.
Qed.

Lemma JsMap_delete_set_absent {V} k (v : V) (b : JsMap.t V) :
  k ∉ b.*1 → JsMap.delete k (JsMap.set k v b) = b.
Proof.
  unfold JsMap.delete. induction b as [|[k' v'] rest IH]; csimpl; intros Hnin.
  - rewrite filter_cons, decide_False; [done|]. simpl. by intros H; apply H.
  - apply not_elem_of_cons in Hnin as [Hne Hnin].
    rewrite decide_False by done. rewrite filter_cons, decide_True by done.
    by rewrite IH.
Qed.

Lemma JsMap_get_delete_ne {V} k mid (b : JsMap.t V) :
  k ≠ mid → JsMap.get k (JsMap.delete mid b) = JsMap.get k b.
Proof.
  intros Hne. unfold JsMap.get, JsMap.delete.
  induction b as [|[k' v'] rest IH]; [done|].
  rewrite filter_cons. simpl. case_decide as Hk'; simpl.
  - case_bool_decide; [done|]. exact IH.
  - rewrite bool_decide_eq_false_2 by congruence. exact IH.
Qed.

Lemma engine_wf_new : engine_wf Engine.new.
Proof.
  unfold engine_wf, Engine.new. simpl. repeat split; try lia.
  - apply NoDup_nil_2.
  - by intros kv H%elem_of_nil.
Qed.

Lemma engine_wf_step e (o : Engine.Op) : engine_wf e → engine_wf (Engine.step e o).
Proof.
  intros (Hnd & Hid & Htot & Hmax & Hdi & Hsum).
  destruct o as [m vc s now|vc now|mid now|]; simpl.
  - destruct (ready (Message.vectorClock m) s vc) eqn:Hr.
    + rewrite processMessage_ready by done. unfold engine_wf. simpl.
      rewrite length_app. simpl. repeat split; try done; lia.
    + rewrite processMessage_not_ready by done. unfold engine_wf. simpl.
      unfold JsMap.size.
      pose proof (JsMap_set_length (Message.id m) (Engine.mkEntry m now 0)
                    (Engine.messageBuffer e)) as Hlen.
      repeat split.
      * by apply JsMap_set_NoDup.
      * intros kv [->|Hin]%JsMap_set_elem; [done|by apply Hid].
      * lia.
      * lia.
      * done.
      * case_decide; lia.
  - rewrite checkBufferedMessages_eq. unfold engine_wf. simpl.
    rewrite length_map. repeat split; try done.
    + rewrite <- list_fmap_compose.
      assert (fst ∘ retried vc <$> Engine.messageBuffer e
              = (Engine.messageBuffer e).*1) as ->; [|done].
      apply list_fmap_ext. intros i kv _. apply retried_key.
    + intros kv (kv0 & -> & Hin)%list_elem_of_fmap.
      rewrite retried_key. rewrite <- (Hid kv0 Hin).
      unfold retried. by destruct (entry_ready vc kv0).
  - unfold Engine.deliverMessage.
    destruct (JsMap.get mid (Engine.messageBuffer e)) as [entry|] eqn:Hget;
      [|done].
    unfold engine_wf. simpl. rewrite length_app. simpl.
    assert (mid ∈ (Engine.messageBuffer e).*1) as Hin.
    { apply JsMap_get_Some in Hget. apply list_elem_of_fmap. by exists (mid, entry). }
    pose proof (JsMap_delete_length_lt mid (Engine.messageBuffer e) Hin).
    repeat split; try lia.
    + rewrite JsMap_delete_keys. by apply NoDup_filter.
    + intros kv [_ Hkv]%list_elem_of_filter. by apply Hid.
  - apply engine_wf_new.
Qed.

Lemma engine_wf_run (ops : list Engine.Op) : engine_wf (Engine.run ops).
Proof.
  unfold Engine.run.
  assert (∀ e, engine_wf e → engine_wf (foldl Engine.step e ops)) as H.
  { induction ops as [|o ops IH]; intros e He; [done|].
    simpl. apply IH. by apply engine_wf_step. }
  apply H, engine_wf_new.
Qed.

(** X7. After any calls on a new engine, what [getStats] returns adds up:
    every message offered was delivered at once or buffered; the buffer is
    no larger than the largest size recorded; the delivered messages
    include the ones delivered at once; and what is buffered and what is
    delivered together is no more than what was offered. *)
Theorem getStats_counters_add_up (ops : list Engine.Op) :
  let st := Engine.getStats (Engine.run ops) in
  Engine.s_totalProcessed st =
    Engine.s_deliveredImmediately st + Engine.s_buffered st ∧
  Engine.currentBufferSize st ≤ Engine.s_maxBufferSize st ∧
  Engine.s_deliveredImmediately st ≤ Engine.totalDelivered st ∧
  Engine.currentBufferSize st + Engine.totalDelivered st ≤ Engine.s_totalProcessed st.
Proof.
  destruct (engine_wf_run ops) as (_ & _ & Htot & Hmax & Hdi & Hsum).
  unfold Engine.getStats, JsMap.size. simpl. done.
Qed.

(** X8. After any calls on a new engine, the buffer holds every id once, under
    the id of the message it holds, and [getBufferedMessages] lists the
    entries in the order of the buffer. *)
Theorem buffer_is_keyed_by_message_id (ops : list Engine.Op) (now : nat) :
  let e := Engine.run ops in
  NoDup (Engine.messageBuffer e).*1 ∧
  (∀ mid entry, JsMap.get mid (Engine.messageBuffer e) = Some entry →
     Message.id (Engine.message entry) = mid) ∧
  map Engine.v_id (Engine.getBufferedMessages now e) = (Engine.messageBuffer e).*1 ∧
  map (λ v, Message.id (Engine.v_message v)) (Engine.getBufferedMessages now e)
    = (Engine.messageBuffer e).*1.
Proof.
  destruct (engine_wf_run ops) as (Hnd & Hid & _).
  simpl. split; [done|]. split; [|split].
  - intros mid entry Hget%JsMap_get_Some. by apply (Hid (mid, entry)).
  - unfold Engine.getBufferedMessages. by rewrite <- list_fmap_compose.
  - unfold Engine.getBufferedMessages. rewrite <- list_fmap_compose.
    apply list_fmap_ext. intros i kv Hkv. simpl. apply Hid.
    apply list_elem_of_lookup. by exists i.
Qed.

(** X9. [deliverMessage] for an id the buffer does not hold answers [null] and
    changes nothing. For an id it holds, with the ids of the buffer
    distinct, it answers with the entry, takes that entry out and leaves
    the others in their order, adds one record to the delivered messages
    and touches no counter; asked again for the id it answers [null]. The
    [waitTime] it reports is the time of the call less the time the entry
    was received at, a negative number when the former is the smaller. *)
Theorem deliverMessage_takes_the_entry_once e mid now now' :
  NoDup (Engine.messageBuffer e).*1 →
  match JsMap.get mid (Engine.messageBuffer e) with
  | None => Engine.deliverMessage mid now e = (None, e)
  | Some entry =>
      let '(info, e') := Engine.deliverMessage mid now e in
      info = Some (Engine.mkInfo (Engine.message entry) (Engine.receivedAt entry)
                     (Engine.attempts entry)
                     (Z.of_nat now - Z.of_nat (Engine.receivedAt entry))%Z) ∧
      (Engine.messageBuffer e').*1 =
        filter (λ k, k ≠ mid) (Engine.messageBuffer e).*1 ∧
      (∀ k, k ≠ mid →
         JsMap.get k (Engine.messageBuffer e') = JsMap.get k (Engine.messageBuffer e)) ∧
      JsMap.get mid (Engine.messageBuffer e') = None ∧
      length (Engine.messageBuffer e') + 1 = length (Engine.messageBuffer e) ∧
      Engine.deliveredMessages e' =
        Engine.deliveredMessages e ++
        [Engine.mkDelivered mid (Message.timestamp (Engine.message entry)) now
           (Some (Z.of_nat now - Z.of_nat (Engine.receivedAt entry))%Z)] ∧
      Engine.stats e' = Engine.stats e ∧
      Engine.deliverMessage mid now' e' = (None, e')
  end.
Proof.
  intros Hnd.
  destruct (JsMap.get mid (Engine.messageBuffer e)) as [entry|] eqn:Hget.
  2: { unfold Engine.deliverMessage. by rewrite Hget. }
  unfold Engine.deliverMessage at 1. rewrite Hget.
  cbn [fst snd Engine.messageBuffer Engine.deliveredMessages Engine.stats].
  assert (JsMap.get mid (JsMap.delete mid (Engine.messageBuffer e)) = None) as Hnone.
  { apply JsMap_get_None. rewrite JsMap_delete_keys.
    intros [? _]%list_elem_of_filter. done. }
  split; [done|]. split; [apply JsMap_delete_keys|].
  split; [intros k Hk; by apply JsMap_get_delete_ne|]. split; [done|]. split.
  - rewrite <- (length_fmap fst), JsMap_delete_keys.
    rewrite <- (length_fmap fst (Engine.messageBuffer e)).
    assert (mid ∈ (Engine.messageBuffer e).*1) as Hin.
    { apply JsMap_get_Some in Hget. apply list_elem_of_fmap. by exists (mid, entry). }
    clear -Hnd Hin. induction (Engine.messageBuffer e).*1 as [|k ks IH];
      [by apply elem_of_nil in Hin|].
    apply NoDup_cons in Hnd as [Hk Hnd]. rewrite filter_cons.
    apply elem_of_cons in Hin as [->|Hin].
    + rewrite decide_False by (by intros H; apply H). simpl.
      assert (filter (λ k', k' ≠ k) ks = ks) as ->; [|lia].
      apply filter_keeps_all. apply Forall_forall. intros x Hx ->. done.
    + rewrite decide_True by (intros ->; done). simpl. specialize (IH Hnd Hin). lia.
  - split; [done|]. split; [done|].
    unfold Engine.deliverMessage. simpl. by rewrite Hnone.
Qed.

Lemma deliverMessage_takes_the_entry_once_witness :
  (Engine.deliverMessage "a" 9 two_waiting).1 =
    Some (Engine.mkInfo ma 5 0 4%Z) ∧
  (Engine.messageBuffer (Engine.deliverMessage "a" 9 two_waiting).2).*1 = ["b"].
Proof.
  assert (NoDup (Engine.messageBuffer two_waiting).*1) as Hnd.
  { apply (bool_decide_unpack _). by vm_compute. }
  pose proof (deliverMessage_takes_the_entry_once two_waiting "a" 9 9 Hnd) as H.
  assert (JsMap.get "a" (Engine.messageBuffer two_waiting)
          = Some (Engine.mkEntry ma 5 0)) as Hget by (by vm_compute).
  rewrite Hget in H.
  destruct (Engine.deliverMessage "a" 9 two_waiting) as [info e'].
  destruct H as (-> & Hkeys & _). simpl. split; [done|].
  rewrite Hkeys. by vm_compute.
Defined.

Lemma JsMap_get_set_ne {V} k k' (v : V) (b : JsMap.t V) :
  k' ≠ k → JsMap.get k' (JsMap.set k v b) = JsMap.get k' b.
Proof.
  intros Hne. unfold JsMap.get. induction b as [|[k0 v0] rest IH]; simpl.
  - by rewrite bool_decide_eq_false_2.
  - case_decide as Hk0; simpl.
    + subst. by rewrite !bool_decide_eq_false_2 by done.
    + case_bool_decide; [done|]. exact IH.
Qed.

(** X10. A message that is not ready goes into the buffer under its id: at the
    end when the id is new, and in the place of the entry it replaces when
    the id is buffered already, so that offering a buffered message again
    does not grow the buffer. The other entries are not touched. *)
Theorem processMessage_buffers_in_place m vc s now e :
  ready (Message.vectorClock m) s vc = false →
  let e' := (Engine.processMessage m vc s now e).1.2 in
  (Engine.messageBuffer e').*1 =
    (if decide (Message.id m ∈ (Engine.messageBuffer e).*1)
     then (Engine.messageBuffer e).*1
     else (Engine.messageBuffer e).*1 ++ [Message.id m]) ∧
  JsMap.get (Message.id m) (Engine.messageBuffer e') = Some (Engine.mkEntry m now 0) ∧
  (∀ k, k ≠ Message.id m →
     JsMap.get k (Engine.messageBuffer e') = JsMap.get k (Engine.messageBuffer e)) ∧
  Engine.deliveredMessages e' = Engine.deliveredMessages e.
Proof.
  intros Hr e'. subst e'. rewrite processMessage_not_ready by done. simpl.
  split; [|split; [apply JsMap_get_set|split; [|done]]].
  - case_decide.
    + by apply JsMap_set_keys_present.
    + by apply JsMap_set_keys_absent.
  - intros k Hk. by apply JsMap_get_set_ne.
Qed.

Lemma processMessage_buffers_in_place_witness :
  (Engine.messageBuffer
     (Engine.processMessage mb dave_known "alice" 7 two_waiting).1.2).*1 = ["b"; "a"].
Proof.
  assert (ready (Message.vectorClock mb) "alice" dave_known = false) as Hr
    by (by vm_compute).
  destruct (processMessage_buffers_in_place mb dave_known "alice" 7 two_waiting Hr)
    as [Hkeys _].
  rewrite Hkeys. by vm_compute.
Defined.

(** X11. Buffering a message under an id the buffer does not hold and then
    delivering that id gives the message back, with the time it was
    buffered at and no attempt counted, restores the buffer, and adds one
    record to the delivered messages. The [waitTime] is the time of the
    delivery less the time of the buffering, whichever is the larger. *)
Theorem buffer_then_deliver_round_trip m vc s now now' e :
  ready (Message.vectorClock m) s vc = false →
  Message.id m ∉ (Engine.messageBuffer e).*1 →
  let e1 := (Engine.processMessage m vc s now e).1.2 in
  let '(info, e2) := Engine.deliverMessage (Message.id m) now' e1 in
  info = Some (Engine.mkInfo m now 0 (Z.of_nat now' - Z.of_nat now)%Z) ∧
  Engine.messageBuffer e2 = Engine.messageBuffer e ∧
  Engine.deliveredMessages e2 =
    Engine.deliveredMessages e ++
    [Engine.mkDelivered (Message.id m) (Message.timestamp m) now'
       (Some (Z.of_nat now' - Z.of_nat now)%Z)].
Proof.
  intros Hr Hnew e1. subst e1. rewrite processMessage_not_ready by done.
  unfold Engine.deliverMessage. simpl. rewrite JsMap_get_set. simpl.
  split; [done|]. split; [|done]. by apply JsMap_delete_set_absent.
Qed.

Lemma buffer_then_deliver_round_trip_witness :
  Engine.messageBuffer
    (Engine.deliverMessage (Message.id m2) 9
       (Engine.processMessage m2 dave_known "alice" 7 two_waiting).1.2).2
  = Engine.messageBuffer two_waiting.
Proof.
  assert (ready (Message.vectorClock m2) "alice" dave_known = false) as Hr
    by (by vm_compute).
  assert (Message.id m2 ∉ (Engine.messageBuffer two_waiting).*1) as Hnew.
  { intros H. apply (bool_decide_pack _) in H. by vm_compute in H. }
  pose proof (buffer_then_deliver_round_trip m2 dave_known "alice" 7 9
                two_waiting Hr Hnew) as H.
  cbv zeta in H.
  destruct (Engine.deliverMessage (Message.id m2) 9 _) as [info e2].
  destruct H as (_ & Hbuf & _). exact Hbuf.
Defined.

Lemma retried_n_step n vc kv : retried vc (retried_n n vc kv) = retried_n (S n) vc kv.
Proof.
  unfold retried, retried_n. destruct (entry_ready vc kv) eqn:Hr.
  - by rewrite Hr.
  - unfold entry_ready in *. simpl. rewrite Hr. simpl. do 2 f_equal. lia.
Qed.

(** X12. [attempts] counts the passes that found the entry not ready: after [n]
    passes at a clock, an entry that is not ready at that clock has [n]
    attempts more and an entry that is ready has its attempts unchanged;
    the passes change nothing else, and each of them returns what the first
    returns. *)
Theorem attempts_count_failed_passes (n : nat) vc now e :
  let e' := Nat.iter n (λ e, (Engine.checkBufferedMessages vc now e).1.2) e in
  Engine.messageBuffer e' = map (retried_n n vc) (Engine.messageBuffer e) ∧
  Engine.deliveredMessages e' = Engine.deliveredMessages e ∧
  Engine.stats e' = Engine.stats e ∧
  map Engine.r_messageId (Engine.checkBufferedMessages vc now e').1.1 =
    map Engine.r_messageId (Engine.checkBufferedMessages vc now e).1.1.
Proof.
  intros e'. subst e'.
  set (iter := λ k, Nat.iter k (λ e, (Engine.checkBufferedMessages vc now e).1.2) e).
  assert (∀ k, Engine.messageBuffer (iter k)
               = map (retried_n k vc) (Engine.messageBuffer e) ∧
               Engine.deliveredMessages (iter k) = Engine.deliveredMessages e ∧
               Engine.stats (iter k) = Engine.stats e) as H.
  { induction k as [|k (IHb & IHd & IHs)].
    - simpl. repeat split. symmetry. rewrite <- (list_fmap_id (Engine.messageBuffer e)) at 2.
      apply list_fmap_ext. intros i [k0 [? ? ?]] _. unfold retried_n. simpl.
      destruct (entry_ready _ _); [done|]. do 2 f_equal. lia.
    - unfold iter. rewrite Nat.iter_succ. fold (iter k).
      rewrite checkBufferedMessages_eq. simpl. rewrite IHb, IHd, IHs.
      repeat split. rewrite <- list_fmap_compose. apply list_fmap_ext.
      intros i kv _. simpl. apply retried_n_step. }
  change (Nat.iter n _ e) with (iter n). destruct (H n) as (Hb & Hd & Hs).
  split; [done|]. split; [done|]. split; [done|].
  rewrite !checkBufferedMessages_eq. simpl. rewrite Hb.
  rewrite <- !list_fmap_compose.
  change (Engine.r_messageId ∘ ready_of now) with
    (fst : string * Engine.BufferEntry → string).
  clear H Hb Hd Hs.
  induction (Engine.messageBuffer e) as [|kv rest IH]; [done|].
  csimpl. rewrite !filter_cons.
  assert (entry_ready vc (retried_n n vc kv) = entry_ready vc kv) as Hsame.
  { unfold retried_n. by destruct (entry_ready vc kv) eqn:Hr. }
  assert ((retried_n n vc kv).1 = kv.1) as Hkey.
  { unfold retried_n. by destruct (entry_ready vc kv). }
  rewrite Hsame. case_decide; csimpl.
  - by rewrite ?Hkey, IH.
  - by rewrite ?Hkey, IH.
Qed.

End EngineOperations.

(** ** The drain pass of the client *)

Section ClientOperations.

Implicit Types (e : Engine.t) (vc : VCM.t) (app : App.t) (m : Message.t).

Lemma same_key_same_entry {V} (b : JsMap.t V) (kv kv' : string * V) :
  NoDup b.*1 → kv ∈ b → kv' ∈ b → kv.1 = kv'.1 → kv = kv'.
Proof.
  intros Hnd Hin Hin' Hk. destruct kv as [k v], kv' as [k' v']. simpl in Hk. subst k'.
  pose proof (JsMap_get_NoDup _ _ _ Hnd Hin).
  pose proof (JsMap_get_NoDup _ _ _ Hnd Hin'). congruence.
Qed.

(** The body of the loop, for an id the buffer holds: the entry is taken
    out and its message displayed, and the call of [merge] raises. *)
Lemma deliver_one_raises now app r entry :
  JsMap.get (Engine.r_messageId r) (Engine.messageBuffer (App.causalEngine app))
    = Some entry →
  ∃ app',
    App.deliver_one now app r = Throw App.merge_is_not_a_function app' ∧
    App.vectorClock app' = App.vectorClock app ∧
    App.messages app' = App.messages app ++ [Engine.message entry] ∧
    App.bufferedMessages app' =
      remove_first (Engine.r_messageId r) (App.bufferedMessages app) ∧
    Engine.messageBuffer (App.causalEngine app') =
      JsMap.delete (Engine.r_messageId r)
        (Engine.messageBuffer (App.causalEngine app)) ∧
    Engine.deliveredMessages (App.causalEngine app') =
      Engine.deliveredMessages (App.causalEngine app) ++
      [Engine.mkDelivered (Engine.r_messageId r)
         (Message.timestamp (Engine.message entry)) now
         (Some (Engine.elapsed now (Engine.receivedAt entry)))] ∧
    Engine.stats (App.causalEngine app') = Engine.stats (App.causalEngine app) ∧
    App.calls app' =
      App.calls app ++
      [App.CallDeliverMessage (Engine.r_messageId r);
       App.CallDisplayMessage (Message.id (Engine.message entry))].
Proof.
  intros Hget. unfold App.deliver_one, Engine.deliverMessage. rewrite Hget.
  eexists. split; [done|]. simpl. by rewrite <- app_assoc.
Qed.

(** The pass asks the engine once and then runs over what it answered. *)
Lemma deliverBufferedMessages_start now app :
  let buffer := Engine.messageBuffer (App.causalEngine app) in
  let vc := App.vectorClock app in
  App.deliverBufferedMessages now app =
  forEach (App.deliver_one now)
    (map (ready_of now) (filter (λ kv, entry_ready vc kv = true) buffer))
    (App.log App.CallCheckBufferedMessages
       (App.with_engine
          (Engine.mk (map (retried vc) buffer)
             (Engine.deliveredMessages (App.causalEngine app))
             (Engine.stats (App.causalEngine app)))
          app)).
Proof.
  unfold App.deliverBufferedMessages. rewrite checkBufferedMessages_eq. simpl.
  by destruct app.
Qed.

Lemma retried_ready_entry vc kv : entry_ready vc kv = true → retried vc kv = kv.
Proof. intros Hr. unfold retried. by rewrite Hr. Qed.

Lemma retried_keys vc (buffer : JsMap.t Engine.BufferEntry) :
  (map (retried vc) buffer).*1 = buffer.*1.
Proof.
  rewrite <- list_fmap_compose. apply list_fmap_ext. intros i kv _. apply retried_key.
Qed.

(** A ready entry is found under its id in the buffer the engine leaves. *)
Lemma get_ready_after_check vc (buffer : JsMap.t Engine.BufferEntry) kv :
  NoDup buffer.*1 → kv ∈ buffer → entry_ready vc kv = true →
  JsMap.get kv.1 (map (retried vc) buffer) = Some kv.2.
Proof.
  intros Hnd Hin Hr. apply JsMap_get_NoDup; [by rewrite retried_keys|].
  apply list_elem_of_fmap. exists kv. split; [|done].
  rewrite retried_ready_entry by done. by destruct kv.
Qed.

(** X13. One call of [deliverBufferedMessages] on a buffer with distinct
    ids. When no entry is ready at the clock, it returns: nothing is
    displayed, every entry has one attempt more, and no entry of the
    buffer is ready at the clock it leaves. When some entry is
    ready, the first of them in the order of the buffer is taken out of the
    buffer, recorded as delivered and displayed, and then the call of
    [merge] raises: the clock keeps its value, the other entries stay in
    the buffer, also the ready ones, and no second message is displayed. *)
Theorem deliverBufferedMessages_delivers_one_and_raises now app :
  NoDup (Engine.messageBuffer (App.causalEngine app)).*1 →
  let buffer := Engine.messageBuffer (App.causalEngine app) in
  let vc := App.vectorClock app in
  match filter (λ kv, entry_ready vc kv = true) buffer with
  | [] =>
      ∃ app',
        App.deliverBufferedMessages now app = Normal app' ∧
        App.vectorClock app' = vc ∧
        App.messages app' = App.messages app ∧
        App.bufferedMessages app' = App.bufferedMessages app ∧
        Engine.messageBuffer (App.causalEngine app') = map (retried vc) buffer ∧
        Engine.deliveredMessages (App.causalEngine app') =
          Engine.deliveredMessages (App.causalEngine app) ∧
        quiescent (App.causalEngine app') (App.vectorClock app')
  | kv :: _ =>
      ∃ app',
        App.deliverBufferedMessages now app =
          Throw App.merge_is_not_a_function app' ∧
        App.vectorClock app' = vc ∧
        App.messages app' = App.messages app ++ [Engine.message kv.2] ∧
        App.bufferedMessages app' = remove_first kv.1 (App.bufferedMessages app) ∧
        Engine.messageBuffer (App.causalEngine app') =
          JsMap.delete kv.1 (map (retried vc) buffer) ∧
        (Engine.messageBuffer (App.causalEngine app')).*1 =
          filter (λ k, k ≠ kv.1) buffer.*1 ∧
        (∀ kv', kv' ∈ buffer → kv' ≠ kv → entry_ready vc kv' = true →
           kv' ∈ Engine.messageBuffer (App.causalEngine app')) ∧
        Engine.deliveredMessages (App.causalEngine app') =
          Engine.deliveredMessages (App.causalEngine app) ++
          [Engine.mkDelivered kv.1 (Message.timestamp (Engine.message kv.2)) now
             (Some (Z.of_nat now - Z.of_nat (Engine.receivedAt kv.2))%Z)] ∧
        Engine.stats (App.causalEngine app') = Engine.stats (App.causalEngine app)
  end.
Proof.
  intros Hnd buffer vc. rewrite deliverBufferedMessages_start. fold buffer vc.
  destruct (filter (λ kv, entry_ready vc kv = true) buffer) as [|kv rest] eqn:Hf.
  - eexists. split; [done|]. simpl. repeat split.
    intros kv (kv0 & -> & Hin)%list_elem_of_fmap. rewrite retried_ready.
    apply not_true_is_false. intros Hr.
    assert (kv0 ∈ filter (λ kv, entry_ready vc kv = true) buffer) as H
      by (by apply list_elem_of_filter).
    rewrite Hf in H. by apply elem_of_nil in H.
  - assert (kv ∈ buffer ∧ entry_ready vc kv = true) as [Hin Hr].
    { assert (kv ∈ kv :: rest) as H by left. rewrite <- Hf in H.
      by apply list_elem_of_filter in H as [? ?]. }
    cbn [map forEach].
    set (app1 := App.log _ _).
    destruct (deliver_one_raises now app1 (ready_of now kv) kv.2)
      as (app' & Hrun & Hvc & Hm & Hbm & Hb & Hd & Hs & _).
    { subst app1. simpl. by apply get_ready_after_check. }
    exists app'. rewrite Hrun. split; [done|]. subst app1. simpl in *.
    split; [done|]. split; [done|]. split; [done|]. split; [done|].
    split; [by rewrite Hb, JsMap_delete_keys, retried_keys|].
    split; [|done].
    intros kv' Hin' Hne Hr'. rewrite Hb. apply list_elem_of_filter. split.
    + intros Hk. apply Hne. by apply (same_key_same_entry buffer).
    + apply list_elem_of_fmap. exists kv'. by rewrite retried_ready_entry.
Qed.

Lemma deliverBufferedMessages_delivers_one_and_raises_witness :
  ∃ app',
    App.deliverBufferedMessages 9 carol_waiting =
      Throw App.merge_is_not_a_function app' ∧
    map Message.id (App.messages app') = ["b"] ∧
    (Engine.messageBuffer (App.causalEngine app')).*1 = ["a"].
Proof.
  assert (NoDup (Engine.messageBuffer (App.causalEngine carol_waiting)).*1) as Hnd.
  { apply (bool_decide_unpack _). by vm_compute. }
  pose proof (deliverBufferedMessages_delivers_one_and_raises 9 carol_waiting Hnd)
    as H.
  cbv zeta in H.
  assert (filter (λ kv, entry_ready (App.vectorClock carol_waiting) kv = true)
            (Engine.messageBuffer (App.causalEngine carol_waiting))
          = [("b", Engine.mkEntry mb 5 0); ("a", Engine.mkEntry ma 5 0)]) as Hf
    by (by vm_compute).
  rewrite Hf in H. destruct H as (app' & Hrun & _ & Hm & _ & _ & Hk & _).
  exists app'. split; [exact Hrun|]. rewrite Hm, Hk. split; by vm_compute.
Defined.



End ClientOperations.

(** ** User lists and the clock of the client *)

Section UserLists.

Implicit Types (vc : VCM.t) (app : App.t) (us : list (option App.User)).

Lemma syncWithUsers_read (ids : list string) vc p :
  read (VCM.clock (VCM.syncWithUsers ids vc).2) p = read (VCM.clock vc) p.
Proof.
  unfold read. rewrite syncWithUsers_lookup.
  destruct (VCM.clock vc !! p); [done|]. by case_decide.
Qed.

Lemma addUser_read (u : string) vc p :
  read (VCM.clock (VCM.addUser u vc).2) p = read (VCM.clock vc) p.
Proof.
  unfold read. rewrite addUser_lookup.
  destruct (VCM.clock vc !! p); [done|]. by case_decide.
Qed.

Lemma syncWithUsers_dom (ids : list string) vc :
  dom (VCM.clock (VCM.syncWithUsers ids vc).2) = dom (VCM.clock vc) ∪ list_to_set ids.
Proof.
  apply set_eq. intros p. rewrite elem_of_union, !elem_of_dom,
    elem_of_list_to_set, syncWithUsers_lookup.
  destruct (VCM.clock vc !! p) eqn:Hp.
  - split; [by left|by eexists].
  - case_decide as Hin.
    + split; [by right|by eexists].
    + split; [by intros [? ?]|]. intros [[? ?]|?]; done.
Qed.

Lemma syncWithUsers_app (ids ids' : list string) vc :
  (VCM.syncWithUsers (ids ++ ids') vc).2 =
  (VCM.syncWithUsers ids' (VCM.syncWithUsers ids vc).2).2.
Proof.
  revert vc. induction ids as [|u ids IH]; intros vc; [done|].
  rewrite <- app_comm_cons, !syncWithUsers_cons. apply IH.
Qed.

Lemma keys_map_to_list (m : gmap string string) p :
  p ∈ (map_to_list m).*1 ↔ p ∈ dom m.
Proof.
  rewrite elem_of_dom. split.
  - intros ([k v] & -> & Hin)%list_elem_of_fmap.
    apply elem_of_map_to_list in Hin. by eexists.
  - intros [v Hv]. apply list_elem_of_fmap. exists (p, v). split; [done|].
    by apply elem_of_map_to_list.
Qed.

Lemma valid_ids_cons u us :
  valid_ids (u :: us) =
  match App.valid_user u with
  | Some u' => App.user_id u' :: valid_ids us
  | None => valid_ids us
  end.
Proof. unfold valid_ids. simpl. by destruct (App.valid_user u). Qed.

(** The loop over the users of the frame. *)
Lemma list_users_eq us (m0 : gmap string string) app0 :
  let r := foldl App.list_user (m0, app0) us in
  App.vectorClock r.2 =
    (VCM.syncWithUsers (valid_ids us) (App.vectorClock app0)).2 ∧
  dom r.1 = dom m0 ∪ list_to_set (valid_ids us) ∧
  App.causalEngine r.2 = App.causalEngine app0 ∧
  App.messages r.2 = App.messages app0 ∧
  App.bufferedMessages r.2 = App.bufferedMessages app0 ∧
  App.userId r.2 = App.userId app0 ∧
  App.currentRoom r.2 = App.currentRoom app0.
Proof.
  revert m0 app0. induction us as [|u us IH]; intros m0 app0.
  - simpl. repeat split. set_solver.
  - cbn [foldl]. rewrite valid_ids_cons.
    destruct (App.valid_user u) as [u'|] eqn:Hu.
    + assert (App.list_user (m0, app0) u =
              (<[App.user_id u' := App.user_username u']> m0,
               App.log (App.CallAddUser (App.user_id u'))
                 (App.with_clock
                    (VCM.addUser (App.user_id u') (App.vectorClock app0)).2 app0)))
        as -> by (unfold App.list_user; by rewrite Hu).
      destruct (IH (<[App.user_id u' := App.user_username u']> m0)
                   (App.log (App.CallAddUser (App.user_id u'))
                      (App.with_clock
                         (VCM.addUser (App.user_id u') (App.vectorClock app0)).2
                         app0)))
        as (Hvc & Hdom & He & Hm & Hb & Hid & Hroom).
      cbn zeta in *. rewrite Hvc, Hdom, He, Hm, Hb, Hid, Hroom.
      rewrite syncWithUsers_cons, dom_insert_L.
      repeat split. set_solver.
    + assert (App.list_user (m0, app0) u = (m0, app0)) as ->
        by (unfold App.list_user; by rewrite Hu).
      apply IH.
Qed.

Lemma handleUserList_read (us : option (list (option App.User)))
    (selfName : string) app p :
  read (VCM.clock (App.vectorClock (App.handleUserList us selfName app))) p
  = read (VCM.clock (App.vectorClock app)) p.
Proof.
  destruct us as [us|]; [|done]. unfold App.handleUserList.
  pose proof (list_users_eq us ∅ app) as H. cbn zeta in H.
  destruct (foldl App.list_user (∅, app) us) as [m1 app1].
  destruct H as (Hvc & _). simpl in *.
  destruct (negb _ && negb _); simpl; rewrite Hvc.
  - by rewrite syncWithUsers_read, addUser_read, syncWithUsers_read.
  - by rewrite !syncWithUsers_read.
Qed.

(** X14. A [user_list] frame replaces the user map by the users of the frame
    that have an id and a name, with the client itself added; of the clock
    it changes no count: the ids of those users get an entry, at 0 when
    they had none, and no entry is removed, also not that of a user who is
    no longer listed. The engine and the messages are not touched, and a
    frame without a user array changes nothing. *)
Theorem handleUserList_keeps_counts us (selfName : string) app :
  let app' := App.handleUserList (Some us) selfName app in
  let self : gset string :=
    if decide (App.userId app = "") then ∅ else {[App.userId app]} in
  (∀ p, read (VCM.clock (App.vectorClock app')) p
        = read (VCM.clock (App.vectorClock app)) p) ∧
  dom (VCM.clock (App.vectorClock app')) =
    dom (VCM.clock (App.vectorClock app)) ∪ list_to_set (valid_ids us) ∪ self ∧
  dom (App.users app') = list_to_set (valid_ids us) ∪ self ∧
  App.causalEngine app' = App.causalEngine app ∧
  App.messages app' = App.messages app ∧
  App.bufferedMessages app' = App.bufferedMessages app ∧
  App.handleUserList None selfName app = app.
Proof.
  intros app' self. subst app'. unfold App.handleUserList.
  pose proof (list_users_eq us ∅ app) as H. cbn zeta in H.
  destruct (foldl App.list_user (∅, app) us) as [m1 app1].
  destruct H as (Hvc & Hdom & He & Hm & Hb & Hid & Hroom). simpl in *.
  rewrite dom_empty_L, (left_id_L ∅ (∪)) in Hdom.
  destruct (negb (bool_decide (App.userId app = ""))
            && negb (bool_decide (is_Some (m1 !! App.userId app)))) eqn:Hself.
  - apply andb_true_iff in Hself as [Hne Hnin].
    apply negb_true_iff, bool_decide_eq_false in Hne.
    apply negb_true_iff, bool_decide_eq_false in Hnin.
    simpl. rewrite He, Hm, Hb, Hvc. subst self. rewrite decide_False by done.
    split; [|split; [|split; [|done]]].
    + intros p. by rewrite syncWithUsers_read, addUser_read, syncWithUsers_read.
    + rewrite syncWithUsers_dom.
      assert ((VCM.addUser (App.userId app)
                 (VCM.syncWithUsers (valid_ids us) (App.vectorClock app)).2).2
              = (VCM.syncWithUsers [App.userId app]
                   (VCM.syncWithUsers (valid_ids us) (App.vectorClock app)).2).2)
        as -> by (by rewrite syncWithUsers_cons).
      rewrite !syncWithUsers_dom. apply set_eq. intros p.
      rewrite !elem_of_union, !elem_of_list_to_set, keys_map_to_list,
        dom_insert_L, Hdom. set_solver.
    + rewrite dom_insert_L, Hdom. set_solver.
  - simpl. rewrite He, Hm, Hb, Hvc.
    assert (self ⊆ list_to_set (valid_ids us)) as Hsub.
    { subst self. case_decide as Hempty; [set_solver|].
      rewrite bool_decide_eq_false_2 in Hself by done. simpl in Hself.
      apply negb_false_iff, bool_decide_eq_true in Hself.
      apply elem_of_dom in Hself. rewrite Hdom in Hself. set_solver. }
    split; [|split; [|split; [|done]]].
    + intros p. by rewrite !syncWithUsers_read.
    + rewrite !syncWithUsers_dom. apply set_eq. intros p.
      rewrite !elem_of_union, !elem_of_list_to_set, keys_map_to_list, Hdom.
      set_solver.
    + rewrite Hdom. set_solver.
Qed.

(** X15. A client that has only received user lists since its [init] frame
    reads 0 at every id, whatever the clocks of the users are at the hub:
    the user lists carry no counts into the clock. The check then accepts
    a message only if its sender's entry is 1. *)
Theorem user_lists_leave_a_new_clock_at_zero (uid : string)
    (frames : list (option (list (option App.User)) * string)) :
  let app := foldl (λ a f, App.handleUserList f.1 f.2 a) (App.new uid) frames in
  (∀ p, read (VCM.clock (App.vectorClock app)) p = 0) ∧
  (∀ arr s, ready arr s (App.vectorClock app) = true →
            read (Map_of_entries arr) s = 1).
Proof.
  intros app.
  assert (∀ p, read (VCM.clock (App.vectorClock app)) p = 0) as Hzero.
  { subst app.
    assert (∀ a0, (∀ p, read (VCM.clock (App.vectorClock a0)) p = 0) →
              ∀ p, read (VCM.clock
                           (App.vectorClock
                              (foldl (λ a f, App.handleUserList f.1 f.2 a) a0 frames)))
                     p = 0) as H.
    { induction frames as [|[us selfName] frames IH]; intros a0 H0; [done|].
      simpl. apply IH. intros p. by rewrite handleUserList_read. }
    apply H. intros p. unfold read. simpl. rewrite lookup_insert.
    case_decide; [done|]. by rewrite lookup_empty. }
  split; [done|]. intros arr s [Hs _]%ready_true_iff. rewrite Hs, Hzero. done.
Qed.

End UserLists.

(** ** Frames in and out of the client *)

Section ClientFrames.

Implicit Types (vc : VCM.t) (app : App.t) (d : ChatData).

Lemma processed_app (l1 l2 : list App.Call) :
  processed (l1 ++ l2) = processed l1 ++ processed l2.
Proof. unfold processed. apply omap_app. Qed.

Lemma handleChatMessage_ignores d fresh now app :
  valid_frame d = false → App.handleChatMessage d fresh now app = Normal app.
Proof.
  unfold valid_frame, App.handleChatMessage. intros H%negb_false_iff.
  by rewrite H.
Qed.

(** A frame that names its sender gets as far as the call of [merge]. *)
Lemma handleChatMessage_raises d fresh now app :
  valid_frame d = true →
  App.handleChatMessage d fresh now app =
    Throw App.merge_is_not_a_function (App.ensure_sender d app).
Proof.
  unfold valid_frame, App.handleChatMessage. intros H%negb_true_iff.
  by rewrite H.
Qed.

(** What taking up the sender changes: the users, and the clock by an
    entry at 0. *)
Lemma ensure_sender_frame d app :
  let app1 := App.ensure_sender d app in
  App.causalEngine app1 = App.causalEngine app ∧
  App.messages app1 = App.messages app ∧
  App.bufferedMessages app1 = App.bufferedMessages app ∧
  processed (App.calls app1) = processed (App.calls app) ∧
  (App.calls app1 = App.calls app ∨
   App.calls app1 = App.calls app ++ [App.CallAddUser (data_userId d)]) ∧
  dom (App.users app1) = dom (App.users app) ∪ {[data_userId d]} ∧
  (∀ p, read (VCM.clock (App.vectorClock app1)) p
        = read (VCM.clock (App.vectorClock app)) p) ∧
  (∀ p, p ≠ data_userId d →
        VCM.clock (App.vectorClock app1) !! p = VCM.clock (App.vectorClock app) !! p).
Proof.
  unfold App.ensure_sender.
  destruct (App.users app !! data_userId d) as [name|] eqn:Hu; simpl.
  - repeat split; try done; [by left|].
    assert (data_userId d ∈ dom (App.users app)) by (apply elem_of_dom; by eexists).
    set_solver.
  - repeat split; try done.
    + rewrite processed_app. simpl. by rewrite app_nil_r.
    + by right.
    + rewrite dom_insert_L. set_solver.
    + intros p. apply addUser_read.
    + intros p Hp. rewrite addUser_lookup.
      destruct (VCM.clock (App.vectorClock app) !! p); [done|].
      by rewrite decide_False.
Qed.

(** C2. No merge is performed. The class of the clock defines no method
    [merge]: the call of it in [handleChatMessage] raises for every frame
    that names its sender, and the call in the loop of
    [deliverBufferedMessages] raises for every id the buffer holds. After
    either the clock reads at every id what it read before. An entry that
    is below the stamped count is not raised to the maximum of the two, and
    no id of the stamped clock is added; only the sender has been entered,
    with 0, before the call. *)
Theorem merge_call_raises_and_keeps_the_clock d fresh now app :
  valid_frame d = true →
  let snapshot := Map_of_entries (default [] (data_vectorClock d)) in
  ∃ app',
    App.handleChatMessage d fresh now app = Throw App.merge_is_not_a_function app' ∧
    (∀ p, read (VCM.clock (App.vectorClock app')) p
          = read (VCM.clock (App.vectorClock app)) p) ∧
    (∀ p, p ≠ data_userId d →
          VCM.clock (App.vectorClock app') !! p = VCM.clock (App.vectorClock app) !! p) ∧
    (∀ p, read (VCM.clock (App.vectorClock app)) p < read snapshot p →
          read (VCM.clock (App.vectorClock app')) p ≠
          Nat.max (read (VCM.clock (App.vectorClock app)) p) (read snapshot p)) ∧
    (∀ r entry,
       JsMap.get (Engine.r_messageId r) (Engine.messageBuffer (App.causalEngine app))
         = Some entry →
       ∃ app'',
         App.deliver_one now app r = Throw App.merge_is_not_a_function app'' ∧
         App.vectorClock app'' = App.vectorClock app).
Proof.
  intros Hvalid snapshot. exists (App.ensure_sender d app).
  destruct (ensure_sender_frame d app) as (_ & _ & _ & _ & _ & _ & Hread & Hlookup).
  split; [by apply handleChatMessage_raises|]. split; [exact Hread|].
  split; [exact Hlookup|]. split.
  - intros p Hlt. rewrite Hread. lia.
  - intros r entry Hget.
    destruct (deliver_one_raises now app r entry Hget) as (app'' & Hrun & Hvc & _).
    by exists app''.
Qed.

(** The theorem at the first message of "alice", stamped [[alice, 1]], as
    it reaches "bob": his entry for her reads 0 afterwards, and the
    maximum of 0 and 1 is 1. *)
Lemma merge_call_raises_and_keeps_the_clock_witness :
  valid_frame m1_data = true ∧
  ∃ app',
    App.handleChatMessage m1_data "x" 10 (App.new "bob") =
      Throw App.merge_is_not_a_function app' ∧
    read (VCM.clock (App.vectorClock app')) "alice" = 0 ∧
    read (Map_of_entries [("alice", 1)]) "alice" = 1.
Proof.
  assert (valid_frame m1_data = true) as Hvalid by (by vm_compute).
  split; [exact Hvalid|].
  destruct (merge_call_raises_and_keeps_the_clock m1_data "x" 10 (App.new "bob")
              Hvalid) as (app' & Hrun & Hread & _).
  exists app'. split; [exact Hrun|]. rewrite Hread. split; by vm_compute.
Defined.

(** C3. [handleChatMessage] calls [merge] before it asks the engine
    whether the message can be delivered, and the call raises. For every
    frame that names its sender the handler ends by the exception: the
    engine has not been asked, so no counter has moved and its buffer and
    its delivered messages are as before, and the message is neither
    displayed nor put among the buffered messages. In the loop of
    [deliverBufferedMessages] the call of [merge] comes after
    [displayMessage]: the message taken out of the buffer is displayed, and
    then the call raises. *)
Theorem handleChatMessage_raises_before_it_decides d fresh now app :
  valid_frame d = true →
  ∃ app',
    App.handleChatMessage d fresh now app = Throw App.merge_is_not_a_function app' ∧
    App.causalEngine app' = App.causalEngine app ∧
    App.messages app' = App.messages app ∧
    App.bufferedMessages app' = App.bufferedMessages app ∧
    processed (App.calls app') = processed (App.calls app) ∧
    (App.calls app' = App.calls app ∨
     App.calls app' = App.calls app ++ [App.CallAddUser (data_userId d)]) ∧
    (∀ r entry,
       JsMap.get (Engine.r_messageId r) (Engine.messageBuffer (App.causalEngine app))
         = Some entry →
       ∃ app'',
         App.deliver_one now app r = Throw App.merge_is_not_a_function app'' ∧
         App.messages app'' = App.messages app ++ [Engine.message entry] ∧
         App.calls app'' =
           App.calls app ++
           [App.CallDeliverMessage (Engine.r_messageId r);
            App.CallDisplayMessage (Message.id (Engine.message entry))]).
Proof.
  intros Hvalid. exists (App.ensure_sender d app).
  destruct (ensure_sender_frame d app) as (He & Hm & Hb & Hp & Hc & _).
  split; [by apply handleChatMessage_raises|].
  split; [exact He|]. split; [exact Hm|]. split; [exact Hb|].
  split; [exact Hp|]. split; [exact Hc|].
  intros r entry Hget.
  destruct (deliver_one_raises now app r entry Hget)
    as (app'' & Hrun & _ & Hm' & _ & _ & _ & _ & Hc').
  by exists app''.
Qed.

(** The theorem at the first message of "alice" as it reaches "bob": the
    message is ready at his clock, and it is neither displayed nor
    buffered, nor counted by the engine. *)
Lemma handleChatMessage_raises_before_it_decides_witness :
  valid_frame m1_data = true ∧
  ready [("alice", 1)] "alice"
    (App.vectorClock (App.ensure_sender m1_data (App.new "bob"))) = true ∧
  ∃ app',
    App.handleChatMessage m1_data "x" 10 (App.new "bob") =
      Throw App.merge_is_not_a_function app' ∧
    App.messages app' = [] ∧ App.bufferedMessages app' = [] ∧
    App.causalEngine app' = Engine.new.
Proof.
  assert (valid_frame m1_data = true) as Hvalid by (by vm_compute).
  split; [exact Hvalid|]. split; [by vm_compute|].
  destruct (handleChatMessage_raises_before_it_decides m1_data "x" 10
              (App.new "bob") Hvalid) as (app' & Hrun & He & Hm & Hb & _).
  exists app'. split; [exact Hrun|]. rewrite He, Hm, Hb. done.
Defined.

Lemma forEach_skips (pre l : list (ChatData * string * nat)) app :
  Forall (λ f, valid_frame f.1.1 = false) pre →
  forEach (λ a f, App.handleChatMessage f.1.1 f.1.2 f.2 a) (pre ++ l) app =
  forEach (λ a f, App.handleChatMessage f.1.1 f.1.2 f.2 a) l app.
Proof.
  induction 1 as [|[[d fresh] now] pre Hd Hpre IH]; [done|].
  rewrite <- app_comm_cons. cbn [forEach fst snd]. simpl in Hd.
  rewrite handleChatMessage_ignores by done. exact IH.
Qed.

(** X16. [handleHistory] stops at the first message that names its sender.
    The messages before it, which lack the id or the name of the sender,
    are dropped one by one; for that message [handleChatMessage] raises,
    the exception leaves the loop, and the messages after it are not
    looked at, whatever they are. Its sender has joined the users; nothing
    has been offered to the engine, displayed or buffered, and no count of
    the clock has changed. A frame in which no message names its sender,
    and a frame without a message array, change nothing. *)
Theorem handleHistory_stops_at_the_first_message
    (pre post : list (ChatData * string * nat)) d fresh now app :
  Forall (λ f, valid_frame f.1.1 = false) pre →
  valid_frame d = true →
  ∃ app',
    App.handleHistory (Some (pre ++ (d, fresh, now) :: post)) app =
      Throw App.merge_is_not_a_function app' ∧
    App.handleChatMessage d fresh now app = Throw App.merge_is_not_a_function app' ∧
    App.causalEngine app' = App.causalEngine app ∧
    App.messages app' = App.messages app ∧
    App.bufferedMessages app' = App.bufferedMessages app ∧
    processed (App.calls app') = processed (App.calls app) ∧
    dom (App.users app') = dom (App.users app) ∪ {[data_userId d]} ∧
    (∀ p, read (VCM.clock (App.vectorClock app')) p
          = read (VCM.clock (App.vectorClock app)) p) ∧
    App.handleHistory (Some pre) app = Normal app ∧
    App.handleHistory None app = Normal app.
Proof.
  intros Hpre Hvalid. exists (App.ensure_sender d app).
  destruct (ensure_sender_frame d app) as (He & Hm & Hb & Hp & _ & Hu & Hread & _).
  unfold App.handleHistory.
  split.
  { rewrite forEach_skips by done. cbn [forEach fst snd].
    by rewrite handleChatMessage_raises. }
  split; [by apply handleChatMessage_raises|].
  split; [exact He|]. split; [exact Hm|]. split; [exact Hb|].
  split; [exact Hp|]. split; [exact Hu|]. split; [exact Hread|].
  split; [|done].
  rewrite <- (app_nil_r pre). by rewrite forEach_skips.
Qed.

(** The theorem at a history of three messages: one without a sender, the
    first message of "alice", and her second. *)
Lemma handleHistory_stops_at_the_first_message_witness :
  let nameless := mkChatData (Some "m0") "" "" "lost" None None None None in
  ∃ app',
    App.handleHistory
      (Some [(nameless, "x", 10); (m1_data, "y", 11); (m2_data, "z", 12)])
      (App.new "bob") = Throw App.merge_is_not_a_function app' ∧
    dom (App.users app') = {["alice"]} ∧
    App.causalEngine app' = Engine.new.
Proof.
  intros nameless.
  assert (Forall (λ f : ChatData * string * nat, valid_frame f.1.1 = false)
            [(nameless, "x", 10)]) as Hpre.
  { apply Forall_cons. split; [by vm_compute|apply Forall_nil_2]. }
  assert (valid_frame m1_data = true) as Hvalid by (by vm_compute).
  destruct (handleHistory_stops_at_the_first_message [(nameless, "x", 10)]
              [(m2_data, "z", 12)] m1_data "y" 11 (App.new "bob") Hpre Hvalid)
    as (app' & Hrun & _ & He & _ & _ & _ & Hu & _).
  exists app'. split; [exact Hrun|]. split; [|exact He].
  rewrite Hu. simpl. set_solver.
Defined.

(** X17. [sendMessage] with a text, when connected: the own entry of the clock
    goes up by one and no other entry changes; the [chat] frame carries the
    clock after the increment, and a [typing] frame follows it; the
    message is displayed at once under its local id, with the same stamp,
    and is not offered to the engine. With the simulation on, the frame
    asks the hub for a delay, and the hub's timer is set to the value of
    the slider, or to 1000 when the slider is at 0. Without a text or
    without a connection nothing happens. *)
Theorem sendMessage_stamps_and_displays (text : string)
    (simulationEnabled : bool) (delayMs : nat) (selfName localId : string)
    (now : nat) app :
  text ≠ "" →
  let '(app', out) :=
    App.sendMessage text true simulationEnabled delayMs selfName localId now app in
  let self := VCM.userId (App.vectorClock app) in
  ∃ c local,
    out = [App.OutChatFrame c; App.OutTyping false] ∧
    App.out_text c = text ∧
    Map_of_entries (App.out_vectorClock c) = VCM.clock (App.vectorClock app') ∧
    read (VCM.clock (App.vectorClock app')) self =
      read (VCM.clock (App.vectorClock app)) self + 1 ∧
    (∀ p, p ≠ self →
       VCM.clock (App.vectorClock app') !! p = VCM.clock (App.vectorClock app) !! p) ∧
    App.messages app' = App.messages app ++ [local] ∧
    Message.id local = localId ∧ Message.isOwn local = true ∧
    Message.vectorClock local = App.out_vectorClock c ∧
    App.causalEngine app' = App.causalEngine app ∧
    Server.wants_delay (Server.c_metadata (request_of c)) = simulationEnabled ∧
    (if simulationEnabled
     then Server.timer_delay (Server.c_metadata (request_of c)) =
          match delayMs with 0 => 1000 | S _ => delayMs end
     else True) ∧
    App.sendMessage "" true simulationEnabled delayMs selfName localId now app
      = (app, []) ∧
    App.sendMessage text false simulationEnabled delayMs selfName localId now app
      = (app, []).
Proof.
  intros Htext. unfold App.sendMessage.
  rewrite (bool_decide_eq_false_2 (text = "")) by done.
  rewrite (bool_decide_eq_true_2 ("" = "")) by done.
  cbn [orb negb]. rewrite increment_eq. cbn zeta.
  eexists _, _. split; [done|]. split; [done|]. cbn [App.out_vectorClock].
  split; [apply Map_of_entries_map_to_list|].
  split; [simpl; by rewrite read_insert, decide_True|].
  split; [intros p Hp; simpl; by rewrite lookup_insert_ne|].
  split; [done|]. split; [done|]. split; [done|]. split; [done|].
  split; [done|]. split; [by destruct simulationEnabled|].
  split; [|done]. destruct simulationEnabled; [|done].
  unfold Server.timer_delay, request_of. simpl. by destruct delayMs.
Qed.

Lemma sendMessage_stamps_and_displays_witness :
  (App.sendMessage "hi" true true 0 "Bob" "local_7" 7 (App.new "bob")).2
  = [App.OutChatFrame (App.mkOutChat "hi" [("bob", 1)] (mkMetadata true (Some 0)));
     App.OutTyping false].
Proof.
  assert ("hi" ≠ "") as Hne by done.
  pose proof (sendMessage_stamps_and_displays "hi" true 0 "Bob" "local_7" 7
                (App.new "bob") Hne) as H.
  destruct (App.sendMessage "hi" true true 0 "Bob" "local_7" 7 (App.new "bob"))
    as [app' out] eqn:E.
  destruct H as (c & local & -> & _).
  vm_compute in E. by injection E as _ <-.
Defined.

(** X18. [sendTestMessage], when connected: the own entry goes up by one, the
    frame carries the clock after the increment, and the message is not
    displayed by the sender. The frame asks the hub for a delay exactly
    when [delayMs] is positive, and the hub's timer is then set to
    [delayMs]: the default of 1000 is never taken. Without a connection
    nothing happens. *)
Theorem sendTestMessage_asks_for_its_delay (text : string) (delayMs : nat) app :
  let '(app', out) := App.sendTestMessage text delayMs true app in
  let self := VCM.userId (App.vectorClock app) in
  ∃ c,
    out = [App.OutChatFrame c] ∧
    Map_of_entries (App.out_vectorClock c) = VCM.clock (App.vectorClock app') ∧
    read (VCM.clock (App.vectorClock app')) self =
      read (VCM.clock (App.vectorClock app)) self + 1 ∧
    App.messages app' = App.messages app ∧
    Server.wants_delay (Server.c_metadata (request_of c)) = (0 <? delayMs) ∧
    (if 0 <? delayMs
     then Server.timer_delay (Server.c_metadata (request_of c)) = delayMs
     else True) ∧
    App.sendTestMessage text delayMs false app = (app, []).
Proof.
  unfold App.sendTestMessage. cbn [negb]. rewrite increment_eq. cbn zeta.
  eexists. split; [done|]. cbn [App.out_vectorClock].
  split; [apply Map_of_entries_map_to_list|].
  split; [simpl; by rewrite read_insert, decide_True|].
  split; [done|]. split; [done|]. split; [|done].
  destruct delayMs; [done|]. simpl. done.
Qed.

End ClientFrames.

(** ** More on the hub *)

Section HubOperations.

Import Server.

Implicit Types (srv : Server.t) (c client : Client) (cs : list Client).

Lemma store_client_sockets client1 srv :
  ws <$> clients (store_client client1 srv) = ws <$> clients srv.
Proof.
  unfold store_client. simpl. rewrite <- list_fmap_compose.
  apply list_fmap_ext. intros i c _. simpl. by case_decide.
Qed.

Lemma store_client_wf client client1 srv :
  hub_wf srv → client ∈ clients srv →
  ws client1 = ws client → id client1 = id client →
  hub_wf (store_client client1 srv) ∧ client1 ∈ clients (store_client client1 srv).
Proof.
  intros [Hws Hids] Hin Hw Hi. split; [split|].
  - by rewrite store_client_sockets.
  - by rewrite (store_client_ids client client1 srv).
  - unfold store_client. simpl. apply list_elem_of_fmap. exists client.
    split; [|done]. by rewrite decide_True.
Qed.

Lemma hub_wf_clients srv srv' :
  clients srv' = clients srv → hub_wf srv → hub_wf srv'.
Proof. unfold hub_wf. by intros ->. Qed.

Lemma handleJoin_wf client data now srv :
  hub_wf srv → client ∈ clients srv → hub_wf (handleJoin client data now srv).1.
Proof.
  intros Hwf Hin. unfold handleJoin.
  set (client1 := mkClient _ _ _ (j_username data) _ _ _).
  destruct (store_client_wf client client1 srv Hwf Hin eq_refl eq_refl)
    as [Hwf1 Hin1].
  assert (rooms (store_client client1 srv) = rooms srv) as -> by done.
  destruct (rooms srv !! roomId client1) as [room|]; [|done].
  cbn zeta. cbn [fst].
  set (srv2 := mk (clients (store_client client1 srv)) _ _ _).
  assert (hub_wf srv2) as Hwf2 by (by apply (hub_wf_clients (store_client client1 srv))).
  set (client2 := mkClient _ _ _ _ _ _ (<[id client1 := 0]> _)).
  by destruct (store_client_wf client1 client2 srv2 Hwf2 Hin1 eq_refl eq_refl).
Qed.

Lemma handleChat_wf client data uuid now srv :
  hub_wf srv → client ∈ clients srv → hub_wf (handleChat client data uuid now srv).1.
Proof.
  intros Hwf Hin. unfold handleChat.
  destruct (rooms srv !! roomId client) as [room|]; [|done].
  cbn zeta. cbn [fst].
  set (client1 := mkClient _ _ _ _ _ _ (<[id client := _]> _)).
  destruct (store_client_wf client client1 srv Hwf Hin eq_refl eq_refl) as [Hwf1 _].
  by apply (hub_wf_clients (store_client client1 srv)).
Qed.

Lemma handleDisconnect_clients w now srv :
  clients (handleDisconnect w now srv).1 =
  match client_of w srv with
  | Some _ => filter (λ c, ws c ≠ w) (clients srv)
  | None => clients srv
  end.
Proof.
  unfold handleDisconnect. destruct (client_of w srv) as [client|]; [|done].
  by destruct (rooms srv !! roomId client).
Qed.

Lemma filter_wf (P : Client → Prop) `{∀ c, Decision (P c)} srv srv' :
  clients srv' = filter P (clients srv) → hub_wf srv → hub_wf srv'.
Proof.
  intros Heq [Hws Hids]. unfold hub_wf. rewrite Heq. split.
  - apply (sublist_NoDup _ (ws <$> clients srv)); try done.
    apply fmap_sublist, sublist_filter.
  - apply (sublist_NoDup _ (id <$> clients srv)); try done.
    apply fmap_sublist, sublist_filter.
Qed.

(** X19. The sessions of the hub keep distinct sockets and distinct ids through
    every connection, frame, close and error, as long as a connection
    comes on a socket and with an id that no session has. *)
Theorem hub_keeps_sessions_distinct srv (ev : Event) :
  hub_wf srv → admissible srv ev → hub_wf (on_event srv ev).1.
Proof.
  intros Hwf Hadm. destruct ev as [w clientId now|w frame uuid now|w now]; simpl.
  - destruct Hwf as [Hws Hids], Hadm as [Hw Hid]. unfold hub_wf, handleConnection.
    simpl. rewrite !fmap_app. simpl. split.
    + apply NoDup_app. split; [done|]. split; [|apply NoDup_singleton].
      intros x Hx ->%list_elem_of_singleton. done.
    + apply NoDup_app. split; [done|]. split; [|apply NoDup_singleton].
      intros x Hx ->%list_elem_of_singleton. done.
  - unfold handleMessage. destruct frame as [frame|]; [|done].
    destruct (client_of w srv) as [client|] eqn:Hc; [|done].
    apply client_of_elem in Hc as [Hin _].
    destruct frame; try done.
    + pose proof (handleJoin_wf client d now srv Hwf Hin).
      by destruct (handleJoin client d now srv).
    + pose proof (handleChat_wf client d uuid now srv Hwf Hin).
      by destruct (handleChat client d uuid now srv).
  - pose proof (handleDisconnect_clients w now srv) as Hcl.
    destruct (client_of w srv); [|by apply (hub_wf_clients srv)].
    by apply (filter_wf (λ c, ws c ≠ w) srv).
Qed.

Lemma hub_keeps_sessions_distinct_witness :
  hub_wf (on_event hub_with_alice (EvConnection 2 "c" 3)).1.
Proof.
  apply hub_keeps_sessions_distinct.
  - split; apply (bool_decide_unpack _); by vm_compute.
  - split; intros H; apply (bool_decide_pack _) in H; by vm_compute in H.
Defined.

Lemma client_of_store_ne client1 srv w :
  w ≠ ws client1 → client_of w (store_client client1 srv) = client_of w srv.
Proof.
  intros Hne. unfold client_of, store_client. simpl.
  induction (clients srv) as [|c0 cs IH]; [done|]. simpl.
  case_decide as Hc0; simpl.
  - rewrite !bool_decide_eq_false_2 by congruence. exact IH.
  - case_bool_decide; [done|]. exact IH.
Qed.

(** X20. A chat frame of a session in a room that exists advances the own
    entry of the sender's server-side clock by one and changes no other
    entry of it: the hub never merges what the sender has received. No
    other session and no room is changed. The message is stamped with
    the sender's clock after the increment, is appended to the history of
    the sender's room only, and counts as one more message sent. *)
Theorem handleChat_advances_only_the_sender client data uuid now srv room :
  rooms srv !! roomId client = Some room →
  client_of (ws client) srv = Some client →
  let srv' := (handleChat client data uuid now srv).1 in
  ∃ client' message,
    client_of (ws client) srv' = Some client' ∧
    vectorClock client' =
      <[id client := read (vectorClock client) (id client) + 1]> (vectorClock client) ∧
    (∀ w, w ≠ ws client → client_of w srv' = client_of w srv) ∧
    rooms srv' = rooms srv ∧
    Map_of_entries (m_vectorClock message) = vectorClock client' ∧
    m_userId message = id client ∧ m_roomId message = roomId client ∧
    messageHistory srv' !! roomId client =
      Some (default [] (messageHistory srv !! roomId client) ++ [message]) ∧
    (∀ r, r ≠ roomId client → messageHistory srv' !! r = messageHistory srv !! r) ∧
    messagesSent <$> userStats srv' !! id client =
      Some (default 0 (messagesSent <$> userStats srv !! id client) + 1).
Proof.
  intros Hroom Hclient. unfold handleChat. rewrite Hroom. cbn zeta. cbn [fst].
  set (client1 := mkClient _ _ _ _ _ _ (<[id client := _]> _)).
  exists client1.
  match goal with |- context [mkChat ?a ?b ?c ?d ?e ?f ?g ?h] =>
    exists (mkChat a b c d e f g h) end.
  unfold updateUserStats. cbn [clients rooms messageHistory userStats].
  split; [|split; [done|split; [|split; [done|split; [|split; [done|split;
    [done|split; [|split]]]]]]]].
  - apply (client_of_store client1 srv).
    apply client_of_elem in Hclient as [Hin _]. by exists client.
  - intros w Hw. by apply (client_of_store_ne client1 srv).
  - apply Map_of_entries_map_to_list.
  - by rewrite lookup_insert_eq.
  - intros r Hr. by rewrite lookup_insert_ne.
  - rewrite lookup_insert_eq. simpl.
    by destruct (userStats srv !! id client).
Qed.

Lemma handleChat_advances_only_the_sender_witness :
  ∃ alice alice',
    client_of 1 hub_with_alice = Some alice ∧
    client_of 1 (handleChat alice (mkChatRequest "hi" None) "u" 2 hub_with_alice).1
      = Some alice' ∧
    vectorClock alice' !! "a" = Some 1.
Proof.
  assert (∃ alice, client_of 1 hub_with_alice = Some alice ∧ ws alice = 1
                   ∧ roomId alice = "main" ∧ id alice = "a"
                   ∧ vectorClock alice !! "a" = Some 0)
    as (alice & Halice & Hws & Hrid & Hid & Hclock).
  { eexists. split; [by vm_compute|]. repeat split; by vm_compute. }
  assert (∃ room, rooms hub_with_alice !! roomId alice = Some room) as [room Hroom].
  { rewrite Hrid. eexists. by vm_compute. }
  rewrite <- Hws in Halice.
  destruct (handleChat_advances_only_the_sender alice (mkChatRequest "hi" None)
              "u" 2 hub_with_alice room Hroom Halice)
    as (alice' & message & Hc & Hvc & _).
  rewrite Hws in Halice, Hc. exists alice, alice'.
  split; [exact Halice|]. split; [exact Hc|].
  rewrite Hvc, Hid, lookup_insert_eq. unfold read. rewrite Hclock. done.
Defined.

Lemma broadcastToRoom_recipients rid f ex srv :
  broadcastToRoom rid f ex srv = map (λ w, Send w f) (recipients rid ex srv).
Proof.
  unfold broadcastToRoom, recipients. destruct (rooms srv !! rid); [|done].
  by rewrite <- list_fmap_compose.
Qed.

Lemma elem_of_recipients rid ex srv w :
  w ∈ recipients rid ex srv ↔
  is_Some (rooms srv !! rid) ∧ Some w ≠ ex ∧
  ∃ c, c ∈ clients srv ∧ ws c = w ∧ roomId c = rid ∧ readyState c = 1.
Proof.
  unfold recipients. destruct (rooms srv !! rid) as [room|].
  - rewrite list_elem_of_fmap. split.
    + intros (c & -> & [(Hr & Hex & Hrs) Hin]%list_elem_of_filter).
      split; [by eexists|]. split; [done|]. by exists c.
    + intros (_ & Hex & c & Hin & <- & Hr & Hrs). exists c. split; [done|].
      by apply list_elem_of_filter.
  - split; [by intros ?%elem_of_nil|]. by intros [[? ?] _].
Qed.

(** X21. A chat frame that asks for no delay, in a room that exists: the hub
    sends the message to the open sockets of the other sessions whose room
    is the sender's, and to no one else, and then sends the sender the
    acknowledgement and nothing more; it sets no timer. *)
Theorem handleChat_sends_to_the_others client data uuid now srv room :
  rooms srv !! roomId client = Some room →
  wants_delay (c_metadata data) = false →
  let '(srv', actions) := handleChat client data uuid now srv in
  ∃ message sockets,
    actions = map (λ w, Send w (FChat message)) sockets
              ++ [Send (ws client) (FMessageDelivered uuid now)] ∧
    m_id message = uuid ∧ m_text message = c_text data ∧
    (∀ w, w ∈ sockets ↔
       w ≠ ws client ∧
       ∃ c, c ∈ clients srv ∧ ws c = w ∧ roomId c = roomId client ∧ readyState c = 1).
Proof.
  intros Hroom Hdelay. unfold handleChat. rewrite Hroom, Hdelay. cbn zeta.
  set (client1 := mkClient _ _ _ _ _ _ (<[id client := _]> _)).
  rewrite broadcastToRoom_recipients.
  eexists _, _. split; [done|]. split; [done|]. split; [done|].
  intros w. rewrite elem_of_recipients. unfold updateUserStats.
  cbn [clients rooms]. split.
  - intros (_ & Hex & c & Hin & <- & Hr & Hrs).
    assert (ws c ≠ ws client) as Hne by (intros Heq; apply Hex; by rewrite Heq).
    split; [done|].
    apply store_client_elem in Hin as [->|[Hin _]]; [done|]. by exists c.
  - intros (Hne & c & Hin & <- & Hr & Hrs).
    split; [by eexists|]. split; [by intros [= ?]|].
    exists c. split; [|done]. by apply store_client_keeps.
Qed.

Lemma handleChat_sends_to_the_others_witness :
  ∃ alice,
    client_of 1 hub_with_alice = Some alice ∧
    (handleChat alice (mkChatRequest "hi" None) "u" 2 hub_with_alice).2
      = [Send 1 (FMessageDelivered "u" 2)].
Proof.
  eexists. split; [by vm_compute|].
  match goal with
  | |- (handleChat ?c ?d ?u ?n ?s).2 = _ =>
      pose proof (handleChat_sends_to_the_others c d u n s
                    (mkRoom "main" "Main Chat Room" {["a"]} 0)) as H
  end.
  destruct (handleChat _ _ _ _ _) as [srv' actions].
  destruct H as (message & sockets & -> & _ & _ & Hs); [by vm_compute..|].
  destruct sockets as [|w sockets]; [done|]. exfalso.
  destruct (proj1 (Hs w)) as (Hne & c & Hin & Hw & _); [by left|].
  apply Hne. rewrite <- Hw.
  apply list_elem_of_singleton in Hin. by subst c.
Defined.

(** X22. A join that names a room the hub does not have is not refused: the
    hub answers nothing and changes no room, history or clock, but it
    records the name and the room on the session. From then on the
    session's chat frames are dropped without an answer, and no broadcast
    to any room goes to its socket. *)
Theorem join_of_unknown_room_cuts_the_session_off client data now srv :
  let rid := or_string (j_roomId data) "main" in
  rooms srv !! rid = None →
  client_of (ws client) srv = Some client →
  let '(srv1, actions) := handleJoin client data now srv in
  actions = [] ∧
  rooms srv1 = rooms srv ∧ messageHistory srv1 = messageHistory srv ∧
  (∀ w, w ≠ ws client → client_of w srv1 = client_of w srv) ∧
  ∃ client1,
    client_of (ws client) srv1 = Some client1 ∧
    roomId client1 = rid ∧ username client1 = j_username data ∧
    vectorClock client1 = vectorClock client ∧
    (∀ d uuid now', handleChat client1 d uuid now' srv1 = (srv1, [])) ∧
    (∀ r ex, ws client ∉ recipients r ex srv1).
Proof.
  intros rid Hroom Hclient. unfold handleJoin. fold rid.
  set (client1 := mkClient _ _ _ (j_username data) rid _ _).
  assert (rooms (store_client client1 srv) !! roomId client1 = None) as -> by done.
  split; [done|]. split; [done|]. split; [done|].
  split; [intros w Hw; by apply (client_of_store_ne client1 srv)|].
  exists client1. split; [|split; [done|split; [done|split; [done|split]]]].
  - apply (client_of_store client1 srv).
    apply client_of_elem in Hclient as [Hin _]. by exists client.
  - intros d uuid now'. unfold handleChat.
    by assert (rooms (store_client client1 srv) !! roomId client1 = None) as -> by done.
  - intros r ex (Hr & _ & c & Hin & Hw & Hrc & _)%elem_of_recipients.
    apply store_client_elem in Hin as [->|[_ Hne]]; [|done].
    simpl in Hrc. subst r. simpl in Hr. rewrite Hroom in Hr. by destruct Hr.
Qed.

Lemma join_of_unknown_room_cuts_the_session_off_witness :
  handleJoin carol_connected (mkJoin (Some "Carol") (Some "lobby")) 1
    hub_with_anonymous
  = (store_client (mkClient "c" 2 1 (Some "Carol") "lobby" 0 ∅) hub_with_anonymous,
     []).
Proof.
  pose proof (join_of_unknown_room_cuts_the_session_off carol_connected
                (mkJoin (Some "Carol") (Some "lobby")) 1 hub_with_anonymous) as H.
  cbn zeta in H.
  destruct (handleJoin carol_connected _ 1 hub_with_anonymous) as [srv1 actions] eqn:E.
  destruct H as (-> & _); [by vm_compute..|].
  unfold handleJoin in E. simpl in E. by injection E as <-.
Defined.

Lemma client_of_filter_other w w' cs :
  w' ≠ w →
  find (λ c, bool_decide (ws c = w')) (filter (λ c, ws c ≠ w) cs)
  = find (λ c, bool_decide (ws c = w')) cs.
Proof.
  intros Hne. induction cs as [|c cs IH]; [done|].
  rewrite filter_cons. simpl. case_decide as Hc; simpl.
  - case_bool_decide; [done|]. exact IH.
  - rewrite bool_decide_eq_false_2; [exact IH|].
    intros Heq. apply Hne. destruct (decide (ws c = w)); [congruence|done].
Qed.

Lemma client_of_filter_same w cs :
  find (λ c, bool_decide (ws c = w)) (filter (λ c, ws c ≠ w) cs) = None.
Proof.
  induction cs as [|c cs IH]; [done|].
  rewrite filter_cons. case_decide as Hc; simpl; [|exact IH].
  by rewrite bool_decide_eq_false_2.
Qed.

(** X23. [handleDisconnect] takes the session of the socket out of the hub and
    leaves every other session as it is, with the entry its clock has for
    the session that left. A socket the hub does not know, and so a second
    call for the same socket, as an error followed by a close makes it,
    changes nothing and sends nothing. For a session in a room that
    exists, the id leaves the member set of the room, and the last thing
    the handler does is to set the timer of 100 ms for the user list. *)
Theorem handleDisconnect_removes_the_session_once w now now' srv :
  let '(srv', outs) := handleDisconnect w now srv in
  client_of w srv' = None ∧
  (∀ w', w' ≠ w → client_of w' srv' = client_of w' srv) ∧
  handleDisconnect w now' srv' = (srv', []) ∧
  handleError w now srv = (srv', outs) ∧
  match client_of w srv with
  | None => srv' = srv ∧ outs = []
  | Some client =>
      match rooms srv !! roomId client with
      | None => outs = [] ∧ rooms srv' = rooms srv
      | Some room =>
          (∃ room', rooms srv' !! roomId client = Some room' ∧
                    users room' = users room ∖ {[id client]}) ∧
          last outs = Some (SetTimeoutUserList 100 (roomId client))
      end
  end.
Proof.
  destruct (handleDisconnect w now srv) as [srv' outs] eqn:E.
  assert (clients srv' = match client_of w srv with
                         | Some _ => filter (λ c, ws c ≠ w) (clients srv)
                         | None => clients srv
                         end) as Hcl.
  { rewrite <- (handleDisconnect_clients w now srv). by rewrite E. }
  assert (client_of w srv' = None) as Hgone.
  { unfold client_of at 1. rewrite Hcl.
    destruct (client_of w srv) eqn:Hc; [apply client_of_filter_same|exact Hc]. }
  split; [done|]. split; [|split; [|split]].
  - intros w' Hw'. unfold client_of at 1. rewrite Hcl.
    destruct (client_of w srv); [by apply client_of_filter_other|done].
  - unfold handleDisconnect. by rewrite Hgone.
  - done.
  - unfold handleDisconnect in E.
    destruct (client_of w srv) as [client|]; [|by injection E as <- <-].
    destruct (rooms srv !! roomId client) as [room|]; injection E as <- <-;
      [|done].
    simpl. split; [|by rewrite last_snoc].
    eexists. by rewrite lookup_insert_eq.
Qed.

(** X24. Only [join] and [chat] frames change the hub. A text that is no JSON,
    a frame of another type, and any frame on a socket without a session
    are dropped: nothing is changed or sent. A [ping] is answered with one
    [pong]. A [typing] frame is relayed, with the id and the name of its
    sender, to the open socket of every other session whose room is the
    sender's, when that room exists, and to no other socket: it never
    comes back to its sender. History and user list go to the socket that
    asked. *)
Theorem handleMessage_of_the_other_frames w (frame : option InFrame) uuid now srv :
  let '(srv', outs) := handleMessage w frame uuid now srv in
  (client_of w srv = None → srv' = srv ∧ outs = []) ∧
  match frame with
  | Some (InJoin _) | Some (InChat _) => True
  | Some InPing =>
      srv' = srv ∧ (is_Some (client_of w srv) → outs = [SendPong w])
  | Some (InTyping isTyping) =>
      srv' = srv ∧
      (∀ o, o ∈ outs →
         ∃ w' uid name, o = SendTyping w' uid name isTyping ∧ w' ≠ w) ∧
      (∀ client, client_of w srv = Some client →
         outs =
           map (λ w', SendTyping w' (id client) (username client) isTyping)
               (recipients (roomId client) (Some w) srv) ∧
         ∀ w',
           SendTyping w' (id client) (username client) isTyping ∈ outs ↔
           is_Some (rooms srv !! roomId client) ∧ w' ≠ w ∧
           ∃ c, c ∈ clients srv ∧ ws c = w' ∧ roomId c = roomId client ∧
                readyState c = 1)
  | Some InRequestHistory | Some InGetUsers =>
      srv' = srv ∧ (is_Some (client_of w srv) → ∃ f, outs = [Act (Send w f)])
  | Some InOther | None => srv' = srv ∧ outs = []
  end.
Proof.
  unfold handleMessage. destruct frame as [frame|]; [|done].
  destruct (client_of w srv) as [client|] eqn:Hc.
  2: { split; [done|]. destruct frame; try done; (split; [done|]);
         first [by intros [? ?] | split; [by intros o ?%elem_of_nil|done]]. }
  pose proof (client_of_elem _ _ _ Hc) as [_ Hw].
  destruct frame as [d|d|isTyping| | | |].
  - by destruct (handleJoin client d now srv).
  - by destruct (handleChat client d uuid now srv).
  - split; [done|]. split; [done|]. split.
    + intros o (w' & -> & Hin)%list_elem_of_fmap.
      apply elem_of_recipients in Hin as (_ & Hex & _).
      eexists _, _, _. split; [done|]. by intros ->.
    + intros client' [= <-]. split; [done|]. intros w'.
      rewrite list_elem_of_fmap. split.
      * intros (w'' & [= ->] & Hin).
        apply elem_of_recipients in Hin as (Hroom & Hex & Hsome).
        split; [done|]. split; [by intros ->|done].
      * intros (Hroom & Hne & Hsome). exists w'. split; [done|].
        apply elem_of_recipients. split; [done|]. split; [|done].
        by intros [= ->].
  - split; [done|]. split; [done|]. intros _. eexists. simpl. by rewrite Hw.
  - split; [done|]. split; [done|]. intros _. eexists. simpl. by rewrite Hw.
  - done.
  - done.
Qed.

End HubOperations.

(** ** The helpers of the user interface *)

Section UIHelpers.

Import UIManager.

(** X25. [truncateText] returns a text that fits as it is. A longer text is cut
    to its first [maxLength] code units, and three dots follow: the result
    has [maxLength + 3] units, so a text that is one or two units over the
    limit comes out longer than it went in. The empty text stays empty. *)
Theorem truncateText_cuts_and_marks (text : JsString) (maxLength : nat) :
  let r := truncateText text maxLength in
  (length text ≤ maxLength → r = text) ∧
  (maxLength < length text →
     take maxLength r = take maxLength text ∧ drop maxLength r = dots ∧
     length r = maxLength + 3) ∧
  length r ≤ maxLength + 3 ∧
  length r ≤ length text + 2 ∧
  truncateText [] maxLength = [].
Proof.
  unfold truncateText. destruct text as [|c text]; [simpl; repeat split; lia|].
  destruct (Nat.leb_spec (length (c :: text)) maxLength) as [Hle|Hlt].
  - split; [done|]. split; [intros; lia|]. repeat split; lia.
  - assert (length (take maxLength (c :: text)) = maxLength) as Hlen
      by (rewrite length_take; lia).
    split; [intros; lia|]. split; [intros _; split; [|split]|].
    + rewrite take_app_le by lia. rewrite take_take. f_equal. lia.
    + by rewrite <- Hlen at 1; rewrite drop_app_length.
    + rewrite length_app, Hlen. done.
    + rewrite length_app, Hlen. simpl in *. repeat split; lia.
Qed.

(** X26. [getTimeAgo] rounds the age down to whole units: the number it prints
    times the unit is at most the age, which is less than one unit more.
    It prints seconds below one minute, minutes from 1 to 59, hours from
    1 to 23 and days from 1 on; a timestamp that lies in the future gives
    a negative number of seconds. *)
Theorem getTimeAgo_rounds_down (now timestamp : Z) :
  let '(n, u) := getTimeAgo now timestamp in
  let diff := (now - timestamp)%Z in
  (n * millis u ≤ diff < (n + 1) * millis u)%Z ∧
  match u with
  | Seconds => (n < 60)%Z
  | Minutes => (1 ≤ n < 60)%Z
  | Hours => (1 ≤ n < 24)%Z
  | Days => (1 ≤ n)%Z
  end ∧
  ((diff < 0)%Z → u = Seconds ∧ (n < 0)%Z).
Proof.
  unfold getTimeAgo.
  destruct (Z.ltb_spec (now - timestamp) 60000) as [H1|H1];
    [|destruct (Z.ltb_spec (now - timestamp) 3600000) as [H2|H2];
      [|destruct (Z.ltb_spec (now - timestamp) 86400000) as [H3|H3]]];
    cbn [millis].
  - split; [Z.div_mod_to_equations; lia|]. split; [Z.div_mod_to_equations; lia|].
    intros Hneg. split; [done|]. Z.div_mod_to_equations; lia.
  - split; [Z.div_mod_to_equations; lia|]. split; [Z.div_mod_to_equations; lia|].
    intros Hneg. lia.
  - split; [Z.div_mod_to_equations; lia|]. split; [Z.div_mod_to_equations; lia|].
    intros Hneg. lia.
  - split; [Z.div_mod_to_equations; lia|]. split; [Z.div_mod_to_equations; lia|].
    intros Hneg. lia.
Qed.

End UIHelpers.
